(** * The feedback assistant's core: prompt builder and response interpreters

    A shallow embedding of [Task_2/llm.py] (prompt builder, model call,
    strict JSON interpretation of the completion) and of the section-header
    interpretation at the end of [analyze_feedback] in [app.py], with the
    properties the specification states about them; then of the two model
    calls of [app.py], the canned reply of [1_user_dashboard.py], the
    review service client of [2_admin_dashboard.py] and the submissions
    file of [storage.py], with properties read off the code.  The CSV
    files kept through [pandas] and the [streamlit] pages are not embedded.

    Python values are embedded as follows.
    - [str] is a sequence of Unicode code points: [list N].
    - [int] is [Z]; indices returned by [str.find] keep Python's [-1].
    - the values [json.loads] builds are the inductive [value]; a [dict] is
      an association list in insertion order with unique keys.
    - raising is a result in the sum type [result]. *)

From Stdlib Require Import String Ascii DecimalString DecimalPos.
From Stdlib Require Import List ZArith NArith Lia Bool Permutation.
Import ListNotations.
Local Open Scope list_scope.

(** ** Python strings *)

Definition char := N.
Definition str := list char.

Definition ord (a : ascii) : char := N_of_ascii a.

(** An ASCII literal of the source as a Python string. *)
Definition lit (s : string) : str := map ord (list_ascii_of_string s).

Definition str_eqb (a b : str) : bool :=
  if list_eq_dec N.eq_dec a b then true else false.

(** [s.startswith(p)] *)
Fixpoint startswith (s p : str) {struct p} : bool :=
  match p with
  | [] => true
  | c :: p' =>
      match s with
      | [] => false
      | d :: s' => N.eqb c d && startswith s' p'
      end
  end.

(** Lowest index at which [sub] occurs in [s], if any. *)
Fixpoint find_nat (s sub : str) : option nat :=
  if startswith s sub then Some O
  else match s with
       | [] => None
       | _ :: s' => option_map S (find_nat s' sub)
       end.

(** Highest index at which [sub] occurs in [s], if any. *)
Fixpoint rfind_nat (s sub : str) : option nat :=
  match s with
  | [] => if startswith [] sub then Some O else None
  | _ :: s' =>
      match rfind_nat s' sub with
      | Some i => Some (S i)
      | None => if startswith s sub then Some O else None
      end
  end.

Definition index_or_minus1 (o : option nat) : Z :=
  match o with
  | Some i => Z.of_nat i
  | None => (-1)%Z
  end.

(** [s.find(sub)] and [s.rfind(sub)]: an index, or [-1]. *)
Definition find (s sub : str) : Z := index_or_minus1 (find_nat s sub).
Definition rfind (s sub : str) : Z := index_or_minus1 (rfind_nat s sub).

(** A slice bound, as Python clamps it against the length. *)
Definition clamp (len i : Z) : nat :=
  Z.to_nat (if (i <? 0)%Z then Z.max (i + len) 0 else Z.min i len).

(** [s[lo:hi]] *)
Definition slice (s : str) (lo hi : Z) : str :=
  let len := Z.of_nat (length s) in
  let l := clamp len lo in
  let h := clamp len hi in
  firstn (h - l) (skipn l s).

(** The code points [str.isspace] accepts, which [str.strip()] removes. *)
Definition isspace (c : char) : bool :=
  ((9 <=? c) && (c <=? 13) || (28 <=? c) && (c <=? 32)
   || (c =? 133) || (c =? 160) || (c =? 5760)
   || (8192 <=? c) && (c <=? 8202)
   || (c =? 8232) || (c =? 8233) || (c =? 8239) || (c =? 8287)
   || (c =? 12288))%N.

Fixpoint lstrip (s : str) : str :=
  match s with
  | [] => []
  | c :: s' => if isspace c then lstrip s' else s
  end.

Definition rstrip (s : str) : str := rev (lstrip (rev s)).

(** [s.strip()] *)
Definition strip (s : str) : str := rstrip (lstrip s).

(** [s.split(sep)] for a non-empty separator: the pieces between the
    non-overlapping occurrences of [sep], found left to right.  (Python
    raises [ValueError] on an empty separator; the source only passes the
    literal markers.)  The recursion is bounded by the length of [s]. *)
Fixpoint split_n (n : nat) (s sep : str) : list str :=
  match n with
  | O => [s]
  | S n' =>
      match find_nat s sep with
      | None => [s]
      | Some i => firstn i s :: split_n n' (skipn (i + length sep) s) sep
      end
  end.

Definition split (s sep : str) : list str := split_n (length s) s sep.

(** [s.replace(old, new)] for a non-empty [old]: every non-overlapping
    occurrence, found left to right, is replaced. *)
Fixpoint replace_n (n : nat) (s old new : str) : str :=
  match n with
  | O => s
  | S n' =>
      match find_nat s old with
      | None => s
      | Some i =>
          firstn i s ++ new ++ replace_n n' (skipn (i + length old) s) old new
      end
  end.

Definition replace (s old new : str) : str := replace_n (length s) s old new.

(** [str(z)] for an [int]. *)
Definition str_int (z : Z) : str :=
  lit (NilZero.string_of_int (Z.to_int z)).

(** [sub in s] for strings, and [s.endswith(p)], as propositions. *)
Definition contains (s sub : str) : Prop := exists a b, s = a ++ sub ++ b.
Definition ends_with (s p : str) : Prop := exists a, s = a ++ p.

(** ** Prompt builder ([build_prompt]) *)

Definition en_dash : char := 8211%N.
Definition nl : str := [10%N].
Definition dq : str := [34%N].

(** [q s] is the literal [s] between double quotes. *)
Definition q (s : string) : str := dq ++ lit s ++ dq.

(** The f-string template, cut at its two replacement fields. *)
Definition template_head : str :=
  nl ++
  lit "You are an AI assistant helping a business understand customer feedback." ++ nl ++
  nl ++
  lit "You will receive:" ++ nl ++
  lit "- A star rating (1 to 5)" ++ nl ++
  lit "- A short free-text review" ++ nl ++
  nl ++
  lit "Your tasks:" ++ nl ++
  lit "1. Write a short, warm, user-facing reply directly to the customer." ++ nl ++
  lit "2. Summarise the essence of the review in <= 20 words." ++ nl ++
  lit "3. Suggest 2" ++ [en_dash] ++ lit "3 concrete next actions for the business." ++ nl ++
  nl ++
  lit "Return ONLY a valid JSON object with these exact keys:" ++ nl ++
  lit "- " ++ q "user_response" ++ lit ": string" ++ nl ++
  lit "- " ++ q "summary" ++ lit ": string" ++ nl ++
  lit "- " ++ q "actions" ++ lit ": array of strings" ++ nl ++
  nl ++
  lit "Example of the required format:" ++ nl ++
  lit "{" ++ nl ++
  lit "  " ++ q "user_response" ++ lit ": " ++ q "Thank you for your feedback..." ++ lit "," ++ nl ++
  lit "  " ++ q "summary" ++ lit ": " ++ q "Customer loved the food but found service slow." ++ lit "," ++ nl ++
  lit "  " ++ q "actions" ++ lit ": [" ++ nl ++
  lit "    " ++ q "Train staff to reduce wait time" ++ lit "," ++ nl ++
  lit "    " ++ q "Monitor peak hours and add staff" ++ nl ++
  lit "  ]" ++ nl ++
  lit "}" ++ nl ++
  nl ++
  lit "Now generate the JSON." ++ nl ++
  nl ++
  lit "Rating: ".

Definition template_mid : str := nl ++ lit "Review: " ++ dq ++ dq ++ dq.

Definition template_tail : str :=
  dq ++ dq ++ dq ++ lit " " ++ nl ++ nl ++ lit "JSON:" ++ nl.

Definition build_prompt (rating : Z) (review : str) : str :=
  strip (template_head ++ str_int rating ++ template_mid ++ review ++ template_tail).

(** ** Section-header interpretation (the end of [analyze_feedback])

    The three statements that follow the model call in [app.py]:
    [parts = analysis.split("ACTIONS:")], then the summary and the actions
    read from [parts]. *)

Definition ACTIONS : str := lit "ACTIONS:".
Definition SUMMARY : str := lit "SUMMARY:".
Definition actions_fallback : str := lit "Could not parse actions.".

Definition parse_sections (analysis : str) : str * str :=
  let parts := split analysis ACTIONS in
  let summary := strip (replace (nth 0 parts []) SUMMARY []) in
  let actions :=
    if (1 <? length parts)%nat then strip (nth 1 parts []) else actions_fallback in
  (summary, actions).

(** ** The values [json.loads] builds *)

(** A [float] is carried as the lexeme the scanner hands to [float()]
    (binary64 rounding is not modelled); every other value is exact. *)
#[warnings="-register-all"]
Inductive value : Type :=
| VNone
| VBool (b : bool)
| VInt (z : Z)
| VFloat (lexeme : str)
| VStr (s : str)
| VList (l : list value)
| VDict (d : list (str * value)).

(** [d[k] = v]: an existing key keeps its place and takes the new value. *)
Fixpoint dict_set (d : list (str * value)) (k : str) (v : value)
  : list (str * value) :=
  match d with
  | [] => [(k, v)]
  | (k', v') :: d' =>
      if str_eqb k' k then (k', v) :: d' else (k', v') :: dict_set d' k v
  end.

(** [dict(pairs)] *)
Definition dict_of_pairs (pairs : list (str * value)) : list (str * value) :=
  fold_left (fun d kv => dict_set d (fst kv) (snd kv)) pairs [].

Fixpoint dict_lookup (d : list (str * value)) (k : str) : option value :=
  match d with
  | [] => None
  | (k', v) :: d' => if str_eqb k' k then Some v else dict_lookup d' k
  end.

(** [d.get(k, default)] *)
Definition dict_get (d : list (str * value)) (k : str) (default : value) : value :=
  match dict_lookup d k with
  | Some v => v
  | None => default
  end.

(** ** [json.loads]

    The decoder of CPython's [json] package with its default settings
    (strict, no hooks), as its scanner reads a [str].  A diagnostic is
    modelled by its message; the position it also reports is left out. *)

Inductive decode_msg : Type :=
| ExpectingValue          (* "Expecting value" *)
| ExpectingPropertyName   (* "Expecting property name enclosed in double quotes" *)
| ExpectingColon          (* "Expecting ':' delimiter" *)
| ExpectingComma          (* "Expecting ',' delimiter" *)
| UnterminatedString      (* "Unterminated string starting at" *)
| InvalidControlChar      (* "Invalid control character at" *)
| InvalidEscape           (* "Invalid \escape" *)
| InvalidUEscape          (* "Invalid \uXXXX escape" *)
| ExtraData.              (* "Extra data" *)

(** What a scanning function returns: a value and the text after it, a
    diagnostic, or the bound on the recursion reached. *)
Inductive scan (A : Type) : Type :=
| Scanned (a : A) (rest : str)
| Invalid (m : decode_msg)
| Exhausted.
Arguments Scanned {A} a rest.
Arguments Invalid {A} m.
Arguments Exhausted {A}.

(** [WHITESPACE]: space, tab, line feed, carriage return. *)
Definition is_ws (c : char) : bool :=
  ((c =? 32) || (c =? 9) || (c =? 10) || (c =? 13))%N.

Fixpoint skip_ws (s : str) : str :=
  match s with
  | [] => []
  | c :: s' => if is_ws c then skip_ws s' else s
  end.

Definition is_digit (c : char) : bool := ((48 <=? c) && (c <=? 57))%N.

Definition hexval (c : char) : option N :=
  if is_digit c then Some (c - 48)%N
  else if ((97 <=? c) && (c <=? 102))%N then Some (c - 87)%N
  else if ((65 <=? c) && (c <=? 70))%N then Some (c - 55)%N
  else None.

(** The four hexadecimal digits of a [\uXXXX] escape. *)
Definition decode_uXXXX (h1 h2 h3 h4 : char) : option N :=
  match hexval h1, hexval h2, hexval h3, hexval h4 with
  | Some a, Some b, Some c, Some d => Some (((a * 16 + b) * 16 + c) * 16 + d)%N
  | _, _, _, _ => None
  end.

Definition is_high_surrogate (u : N) : bool := ((55296 <=? u) && (u <=? 56319))%N.
Definition is_low_surrogate (u : N) : bool := ((56320 <=? u) && (u <=? 57343))%N.

Definition join_surrogates (hi lo : N) : N :=
  (65536 + N.lor (N.shiftl (hi - 55296) 10) (lo - 56320))%N.

(** [BACKSLASH]: the one-letter escapes. *)
Definition BACKSLASH (e : char) : option char :=
  if (e =? 34)%N then Some 34%N          (* quote *)
  else if (e =? 92)%N then Some 92%N     (* backslash *)
  else if (e =? 47)%N then Some 47%N     (* slash *)
  else if (e =? 98)%N then Some 8%N      (* \b *)
  else if (e =? 102)%N then Some 12%N    (* \f *)
  else if (e =? 110)%N then Some 10%N    (* \n *)
  else if (e =? 114)%N then Some 13%N    (* \r *)
  else if (e =? 116)%N then Some 9%N     (* \t *)
  else None.

(** [scanstring], from the character after the opening quote; [acc] holds
    the decoded characters so far, last first. *)
Fixpoint scanstring (s : str) (acc : str) {struct s} : scan str :=
  match s with
  | [] => Invalid UnterminatedString
  | c :: s1 =>
      if (c =? 34)%N then Scanned (rev acc) s1
      else if (c =? 92)%N then
        match s1 with
        | [] => Invalid UnterminatedString
        | e :: s2 =>
            if (e =? 117)%N then
              match s2 with
              | h1 :: h2 :: h3 :: h4 :: ((_ :: _) as s6) =>
                  match decode_uXXXX h1 h2 h3 h4 with
                  | None => Invalid InvalidUEscape
                  | Some uni =>
                      match s6 with
                      | b :: u :: k1 :: k2 :: k3 :: k4 :: ((_ :: _) as s12) =>
                          if is_high_surrogate uni && (b =? 92)%N && (u =? 117)%N then
                            match decode_uXXXX k1 k2 k3 k4 with
                            | None => Invalid InvalidUEscape
                            | Some uni2 =>
                                if is_low_surrogate uni2
                                then scanstring s12 (join_surrogates uni uni2 :: acc)
                                else scanstring s6 (uni :: acc)
                            end
                          else scanstring s6 (uni :: acc)
                      | _ => scanstring s6 (uni :: acc)
                      end
                  end
              | _ => Invalid InvalidUEscape
              end
            else
              match BACKSLASH e with
              | Some ch => scanstring s2 (ch :: acc)
              | None => Invalid InvalidEscape
              end
        end
      else if (c <=? 31)%N then Invalid InvalidControlChar
      else scanstring s1 (c :: acc)
  end.

(** The longest run of decimal digits at the head of [s], and what follows. *)
Fixpoint span_digits (s : str) : str * str :=
  match s with
  | [] => ([], [])
  | c :: s' =>
      if is_digit c then let (ds, rest) := span_digits s' in (c :: ds, rest)
      else ([], s)
  end.

(** [int(digits)] for decimal digits. *)
Definition int_of_digits (ds : str) : Z :=
  fold_left (fun acc c => (acc * 10 + Z.of_N (c - 48))%Z) ds 0%Z.

(** The integer part of [NUMBER_RE], after the optional sign: [0], or a
    non-zero digit and the digits after it. *)
Definition match_integer (s : str) : option (str * str) :=
  match s with
  | [] => None
  | c :: s' =>
      if (c =? 48)%N then Some ([c], s')
      else if is_digit c then let (ds, rest) := span_digits s' in Some (c :: ds, rest)
      else None
  end.

(** The optional fraction: a point and at least one digit. *)
Definition match_frac (s : str) : str * str :=
  match s with
  | c :: s' =>
      if (c =? 46)%N then
        match span_digits s' with
        | ([], _) => ([], s)
        | (ds, rest) => (c :: ds, rest)
        end
      else ([], s)
  | [] => ([], s)
  end.

(** The optional exponent: [e] or [E], an optional sign, at least one digit. *)
Definition match_exp (s : str) : str * str :=
  match s with
  | c :: s' =>
      if ((c =? 101) || (c =? 69))%N then
        let (sign, s'') :=
          match s' with
          | d :: t => if ((d =? 43) || (d =? 45))%N then ([d], t) else ([], s')
          | [] => ([], s')
          end in
        match span_digits s'' with
        | ([], _) => ([], s)
        | (ds, rest) => (c :: sign ++ ds, rest)
        end
      else ([], s)
  | [] => ([], s)
  end.

(** [NUMBER_RE.match] and the conversion of its groups: an [int] when
    there is neither fraction nor exponent, a [float] otherwise. *)
Definition match_number (s : str) : option (value * str) :=
  let (neg, s0) :=
    match s with
    | c :: s' => if (c =? 45)%N then (true, s') else (false, s)
    | [] => (false, s)
    end in
  match match_integer s0 with
  | None => None
  | Some (ds, s1) =>
      let (frac, s2) := match_frac s1 in
      let (exp, s3) := match_exp s2 in
      let integer := if neg then 45%N :: ds else ds in
      match frac, exp with
      | [], [] =>
          Some (VInt (if neg then - int_of_digits ds else int_of_digits ds)%Z, s3)
      | _, _ => Some (VFloat (integer ++ frac ++ exp), s3)
      end
  end.

(** The branches of [_scan_once] that neither recurse nor read a string:
    the three names, a number, and the three float constants. *)
Definition scan_literal (s : str) : scan value :=
  if startswith s (lit "null") then Scanned VNone (skipn 4 s)
  else if startswith s (lit "true") then Scanned (VBool true) (skipn 4 s)
  else if startswith s (lit "false") then Scanned (VBool false) (skipn 5 s)
  else
    match match_number s with
    | Some (v, rest) => Scanned v rest
    | None =>
        if startswith s (lit "NaN") then Scanned (VFloat (lit "NaN")) (skipn 3 s)
        else if startswith s (lit "Infinity")
        then Scanned (VFloat (lit "Infinity")) (skipn 8 s)
        else if startswith s (lit "-Infinity")
        then Scanned (VFloat (lit "-Infinity")) (skipn 9 s)
        else Invalid ExpectingValue
    end.

(** [_scan_once], with the loops of [JSONObject] and [JSONArray].  The two
    loops start where Python's [while True] starts: [object_loop] after the
    opening quote of a key, [array_loop] at a value.  [fuel] bounds the
    number of nested calls and loop turns. *)
Fixpoint scan_once (fuel : nat) (s : str) {struct fuel} : scan value :=
  match fuel with
  | O => Exhausted
  | S n =>
      match s with
      | [] => Invalid ExpectingValue
      | c :: s1 =>
          if (c =? 34)%N then
            match scanstring s1 [] with
            | Scanned k rest => Scanned (VStr k) rest
            | Invalid m => Invalid m
            | Exhausted => Exhausted
            end
          else if (c =? 123)%N then
            match skip_ws s1 with
            | [] => Invalid ExpectingPropertyName
            | d :: s2 =>
                if (d =? 125)%N then Scanned (VDict []) s2
                else if (d =? 34)%N then object_loop n s2 []
                else Invalid ExpectingPropertyName
            end
          else if (c =? 91)%N then
            match skip_ws s1 with
            | [] => Invalid ExpectingValue
            | d :: s2 =>
                if (d =? 93)%N then Scanned (VList []) s2
                else array_loop n (d :: s2) []
            end
          else scan_literal s
      end
  end

with object_loop (fuel : nat) (s : str) (pairs : list (str * value))
  {struct fuel} : scan value :=
  match fuel with
  | O => Exhausted
  | S n =>
      match scanstring s [] with
      | Invalid m => Invalid m
      | Exhausted => Exhausted
      | Scanned key s1 =>
          match skip_ws s1 with
          | [] => Invalid ExpectingColon
          | c :: s2 =>
              if negb (c =? 58)%N then Invalid ExpectingColon
              else
                match scan_once n (skip_ws s2) with
                | Invalid m => Invalid m
                | Exhausted => Exhausted
                | Scanned v s3 =>
                    let pairs' := pairs ++ [(key, v)] in
                    match skip_ws s3 with
                    | [] => Invalid ExpectingComma
                    | d :: s4 =>
                        if (d =? 125)%N then Scanned (VDict (dict_of_pairs pairs')) s4
                        else if negb (d =? 44)%N then Invalid ExpectingComma
                        else
                          match skip_ws s4 with
                          | [] => Invalid ExpectingPropertyName
                          | e :: s5 =>
                              if (e =? 34)%N then object_loop n s5 pairs'
                              else Invalid ExpectingPropertyName
                          end
                    end
                end
          end
      end
  end

with array_loop (fuel : nat) (s : str) (values : list value)
  {struct fuel} : scan value :=
  match fuel with
  | O => Exhausted
  | S n =>
      match scan_once n s with
      | Invalid m => Invalid m
      | Exhausted => Exhausted
      | Scanned v s1 =>
          let values' := values ++ [v] in
          match skip_ws s1 with
          | [] => Invalid ExpectingComma
          | d :: s2 =>
              if (d =? 93)%N then Scanned (VList values') s2
              else if negb (d =? 44)%N then Invalid ExpectingComma
              else array_loop n (skip_ws s2) values'
          end
      end
  end.

(** What [json.loads] does: a value, [JSONDecodeError], or the recursion
    bound reached. *)
Inductive loads_result : Type :=
| Loaded (v : value)
| JSONDecodeError (m : decode_msg)
| DepthExceeded.

(** [json.loads(s)]: leading whitespace, one value, trailing whitespace,
    and nothing else.  Two units of fuel per character and one more are
    enough for every document ([json_loads_never_exhausted]).  Two limits
    of the interpreter are not modelled: its recursion limit, which a
    document nested some thousand levels deep hits, and, from CPython 3.11
    on, its limit of 4300 digits on an integer literal. *)
Definition json_loads (s : str) : loads_result :=
  match scan_once (2 * length s + 1) (skip_ws s) with
  | Scanned obj rest =>
      match skip_ws rest with
      | [] => Loaded obj
      | _ :: _ => JSONDecodeError ExtraData
      end
  | Invalid m => JSONDecodeError m
  | Exhausted => DepthExceeded
  end.

(** ** [repr] and [str] of a value *)

(** The two tables of the interpreter that the model takes as given: the
    shortest decimal rendering of the [float] a lexeme denotes, and
    [str.isprintable] on the code points from 128 on. *)
Class Runtime : Type := {
  float_repr : str -> str;
  isprintable : char -> bool
}.

(** A runtime for closed examples; none of them consults it. *)
Definition example_runtime : Runtime :=
  {| float_repr := fun lexeme => lexeme; isprintable := fun _ => true |}.

Definition hex_digit (d : N) : char :=
  if (d <? 10)%N then (48 + d)%N else (87 + d)%N.

(** [n] lower-case hexadecimal digits of [c], most significant first. *)
Fixpoint hex_digits (n : nat) (c : N) : str :=
  match n with
  | O => []
  | S n' => hex_digits n' (c / 16)%N ++ [hex_digit (c mod 16)%N]
  end.

Definition repr_char `{Runtime} (quote c : char) : str :=
  if ((c =? quote) || (c =? 92))%N then [92; c]%N
  else if (c =? 9)%N then lit "\t"
  else if (c =? 10)%N then lit "\n"
  else if (c =? 13)%N then lit "\r"
  else if ((c <? 32) || (c =? 127))%N then lit "\x" ++ hex_digits 2 c
  else if (c <? 127)%N then [c]
  else if isprintable c then [c]
  else if (c <=? 255)%N then lit "\x" ++ hex_digits 2 c
  else if (c <=? 65535)%N then lit "\u" ++ hex_digits 4 c
  else lit "\U" ++ hex_digits 8 c.

Definition has_char (c : char) (s : str) : bool := existsb (N.eqb c) s.

(** [repr(s)] for a [str]: single quotes, unless the text holds a single
    quote and no double quote. *)
Definition repr_str `{Runtime} (s : str) : str :=
  let quote := if has_char 39%N s && negb (has_char 34%N s) then 34%N else 39%N in
  [quote] ++ flat_map (repr_char quote) s ++ [quote].

(** [sep.join(parts)] *)
Fixpoint join (sep : str) (parts : list str) : str :=
  match parts with
  | [] => []
  | [p] => p
  | p :: ps => p ++ sep ++ join sep ps
  end.

Fixpoint repr `{Runtime} (v : value) : str :=
  match v with
  | VNone => lit "None"
  | VBool true => lit "True"
  | VBool false => lit "False"
  | VInt z => str_int z
  | VFloat lexeme => float_repr lexeme
  | VStr s => repr_str s
  | VList l => lit "[" ++ join (lit ", ") (map repr l) ++ lit "]"
  | VDict d =>
      lit "{"
      ++ join (lit ", ") (map (fun kv => repr_str (fst kv) ++ lit ": " ++ repr (snd kv)) d)
      ++ lit "}"
  end.

(** [str(v)] *)
Definition py_str `{Runtime} (v : value) : str :=
  match v with
  | VStr s => s
  | _ => repr v
  end.

(** ** Exceptions *)

(** The four [LLMError]s of [llm.py], told apart by their message, under
    the names the specification gives them. *)
Inductive LLMError : Type :=
| AuthenticationMissing                   (* HF_API_TOKEN is not set ... *)
| ServiceError (status : Z) (body : str)  (* HF API error: status - body *)
| NoJsonFound                             (* No JSON object found in LLM output. *)
| MalformedJson (detail : decode_msg).    (* Failed to parse JSON: detail *)

Inductive exn : Type :=
| LLMErr (e : LLMError)
| TypeError
| AttributeError
| KeyError
| RecursionError
| RequestException
| ResponseNotJson (detail : decode_msg).

Inductive result (A : Type) : Type :=
| Return (a : A)
| Raise (e : exn).
Arguments Return {A} a.
Arguments Raise {A} e.

(** ** Model call ([call_llm]) *)

(** What [requests.post] is given: the URL, the [Authorization] header,
    the [inputs] and [max_new_tokens] of the payload and the timeout in
    seconds.  The constant [temperature] of the payload is left out. *)
Record request : Type := {
  req_url : str;
  req_authorization : str;
  req_inputs : str;
  req_max_new_tokens : Z;
  req_timeout : Z
}.

Record response : Type := {
  status_code : Z;
  text : str
}.

Definition HF_MODEL : str := lit "mistralai/Mistral-7B-Instruct-v0.3".
Definition API_URL : str :=
  lit "https://api-inference.huggingface.co/models/" ++ HF_MODEL.

Definition generated_text : str := lit "generated_text".

(** [k in v] for a [str] key: membership in a [dict]'s keys, in a
    [list]'s items, substring of a [str]; other values are not iterable. *)
Definition py_in (k : str) (v : value) : result bool :=
  match v with
  | VDict d =>
      Return (match dict_lookup d k with Some _ => true | None => false end)
  | VList l =>
      Return (existsb (fun x => match x with VStr s => str_eqb s k | _ => false end) l)
  | VStr s =>
      Return (match find_nat s k with Some _ => true | None => false end)
  | _ => Raise TypeError
  end.

(** [v[k]] for a [str] key. *)
Definition py_getitem (v : value) (k : str) : result value :=
  match v with
  | VDict d =>
      match dict_lookup d k with
      | Some x => Return x
      | None => Raise KeyError
      end
  | _ => Raise TypeError
  end.

(** [resp.json()] *)
Definition response_json (resp : response) : result value :=
  match json_loads (text resp) with
  | Loaded v => Return v
  | JSONDecodeError m => Raise (ResponseNotJson m)
  | DepthExceeded => Raise RecursionError
  end.

(** What [call_llm] does with the decoded body [data]. *)
Definition generated_text_of `{Runtime} (data : value) : result value :=
  match
    match data with
    | VList (first :: _) => py_in generated_text first
    | _ => Return false
    end
  with
  | Raise e => Raise e
  | Return true =>
      match data with
      | VList (first :: _) => py_getitem first generated_text
      | _ => Raise TypeError
      end
  | Return false =>
      match data with
      | VDict d =>
          match dict_lookup d generated_text with
          | Some x => Return x
          | None => Return (VStr (py_str data))
          end
      | _ => Return (VStr (py_str data))
      end
  end.

(** [call_llm(prompt, max_new_tokens)].  [HF_API_TOKEN] is the credential
    read from the environment, if any, and [post] the network.  The second
    component lists the requests sent. *)
Definition call_llm `{Runtime}
  (HF_API_TOKEN : option str) (post : request -> result response)
  (prompt : str) (max_new_tokens : Z) : result value * list request :=
  match HF_API_TOKEN with
  | None | Some [] => (Raise (LLMErr AuthenticationMissing), [])
  | Some token =>
      let req := {| req_url := API_URL;
                    req_authorization := lit "Bearer " ++ token;
                    req_inputs := prompt;
                    req_max_new_tokens := max_new_tokens;
                    req_timeout := 60 |} in
      match post req with
      | Raise e => (Raise e, [req])
      | Return resp =>
          if negb (status_code resp =? 200)%Z
          then (Raise (LLMErr (ServiceError (status_code resp) (text resp))), [req])
          else
            match response_json resp with
            | Raise e => (Raise e, [req])
            | Return data => (generated_text_of data, [req])
            end
      end
  end.

(** ** Strict interpretation ([parse_llm_json], [generate_feedback]) *)

Definition parse_llm_json (raw_text : str) : result value :=
  let start := find raw_text (lit "{") in
  let end_ := rfind raw_text (lit "}") in
  if ((start =? -1) || (end_ =? -1) || (end_ <=? start))%Z
  then Raise (LLMErr NoJsonFound)
  else
    let json_str := slice raw_text start (end_ + 1) in
    match json_loads json_str with
    | Loaded obj => Return obj
    | JSONDecodeError e => Raise (LLMErr (MalformedJson e))
    | DepthExceeded => Raise RecursionError
    end.

(** The [dict] that [generate_feedback] returns. *)
Record StructuredFeedback : Type := {
  user_response : value;
  summary : value;
  actions : value
}.

Definition default_user_response : str := lit "Thank you for your feedback!".
Definition default_summary : str := lit "Customer left feedback.".

(** The safety defaults of [generate_feedback], applied to the parsed
    [data]. *)
Definition normalize `{Runtime} (data : value) : result StructuredFeedback :=
  match data with
  | VDict d =>
      let user_response := dict_get d (lit "user_response") (VStr default_user_response) in
      let summary := dict_get d (lit "summary") (VStr default_summary) in
      let actions := dict_get d (lit "actions") (VList []) in
      let actions :=
        match actions with
        | VList _ => actions
        | _ => VList [VStr (py_str actions)]
        end in
      Return {| user_response := user_response;
                summary := summary;
                actions := actions |}
  | _ => Raise AttributeError
  end.

(** [generate_feedback] from the raw output on: parse, then normalize. *)
Definition parse_and_normalize `{Runtime} (raw_output : str)
  : result StructuredFeedback :=
  match parse_llm_json raw_output with
  | Raise e => Raise e
  | Return data => normalize data
  end.

Definition generate_feedback `{Runtime}
  (HF_API_TOKEN : option str) (post : request -> result response)
  (rating : Z) (review : str) : result StructuredFeedback :=
  let prompt := build_prompt rating review in
  match fst (call_llm HF_API_TOKEN post prompt 256) with
  | Raise e => Raise e
  | Return (VStr raw_output) => parse_and_normalize raw_output
  | Return _ => Raise AttributeError
  end.

(** ** Notions used in the statements *)

(** A text is unbordered when no proper non-empty prefix of it is also a
    suffix: two occurrences of it never overlap. *)
Definition unbordered (m : str) : Prop :=
  forall l u w, m = l ++ u -> m = w ++ l -> l = [] \/ l = m.

Definition unbordered_b (m : str) : bool :=
  forallb (fun k => negb (str_eqb (firstn k m) (skipn (length m - k) m)))
          (seq 1 (length m - 1)).

(** The prompt without the line break that opens the template and the
    one that closes it. *)
Definition prompt_head : str := tl template_head.
Definition prompt_tail : str :=
  dq ++ dq ++ dq ++ lit " " ++ nl ++ nl ++ lit "JSON:".

(** The text of [raw] before the first [ACTIONS:] marker, or all of it. *)
Definition before_marker (raw : str) : str := nth 0 (split raw ACTIONS) [].

Definition lbrace : char := 123%N.
Definition rbrace : char := 125%N.

(** What [parse_llm_json] makes of the candidate text it cut out. *)
Definition parse_span (json_str : str) : result value :=
  match json_loads json_str with
  | Loaded obj => Return obj
  | JSONDecodeError e => Raise (LLMErr (MalformedJson e))
  | DepthExceeded => Raise RecursionError
  end.

(** *** Well-formed JSON text of a flat object

    The JSON texts that the recovery property ranges over: an object whose
    members are strings or arrays of strings, written with any whitespace
    between the tokens and with any of the escapes of the JSON grammar in
    the strings. *)

(** One character of a string literal, as written. *)
Inductive item : Type :=
| Raw (c : char)
| Esc (e : char)
| EscU (h1 h2 h3 h4 : char)
| EscPair (h1 h2 h3 h4 k1 k2 k3 k4 : char).

Definition item_text (i : item) : str :=
  match i with
  | Raw c => [c]
  | Esc e => [92; e]
  | EscU h1 h2 h3 h4 => [92; 117; h1; h2; h3; h4]
  | EscPair h1 h2 h3 h4 k1 k2 k3 k4 =>
      [92; 117; h1; h2; h3; h4; 92; 117; k1; k2; k3; k4]
  end%N.

(** The character an item stands for, when the item is well formed: a raw
    character is neither a control character, a quote nor a backslash; a
    one-letter escape is one of the eight; a [\uXXXX] escape has four
    hexadecimal digits and is not the first half of a surrogate pair; a
    pair is a first half followed by a second half. *)
Definition item_char (i : item) : option char :=
  match i with
  | Raw c => if ((c <=? 31) || (c =? 34) || (c =? 92))%N then None else Some c
  | Esc e => BACKSLASH e
  | EscU h1 h2 h3 h4 =>
      match decode_uXXXX h1 h2 h3 h4 with
      | Some u => if is_high_surrogate u then None else Some u
      | None => None
      end
  | EscPair h1 h2 h3 h4 k1 k2 k3 k4 =>
      match decode_uXXXX h1 h2 h3 h4, decode_uXXXX k1 k2 k3 k4 with
      | Some hi, Some lo =>
          if is_high_surrogate hi && is_low_surrogate lo
          then Some (join_surrogates hi lo) else None
      | _, _ => None
      end
  end.

Fixpoint all_some {A : Type} (l : list (option A)) : option (list A) :=
  match l with
  | [] => Some []
  | Some a :: l' => option_map (cons a) (all_some l')
  | None :: _ => None
  end.

(** A string literal and the text it denotes. *)
Definition string_text (items : list item) : str :=
  dq ++ flat_map item_text items ++ dq.

Definition string_chars (items : list item) : option str :=
  all_some (map item_char items).

Definition blank (w : str) : bool := forallb is_ws w.

(** An element of an array of strings, with the whitespace around it. *)
Record elem : Type := {
  e_before : str;
  e_items : list item;
  e_after : str
}.

Definition elem_text (e : elem) : str :=
  e_before e ++ string_text (e_items e) ++ e_after e.

Definition elem_str (e : elem) : option str :=
  if blank (e_before e) && blank (e_after e) then string_chars (e_items e)
  else None.

(** A member's value: a string, or an array of strings. *)
Inductive field : Type :=
| FString (items : list item)
| FArray (ws : str) (elems : list elem).

Definition comma : str := [44%N].

Definition field_text (f : field) : str :=
  match f with
  | FString items => string_text items
  | FArray ws elems => lit "[" ++ ws ++ join comma (map elem_text elems) ++ lit "]"
  end.

Definition field_value (f : field) : option value :=
  match f with
  | FString items => option_map VStr (string_chars items)
  | FArray ws elems =>
      if blank ws
      then option_map (fun l => VList (map VStr l)) (all_some (map elem_str elems))
      else None
  end.

Record member : Type := {
  m_before : str;
  m_key : list item;
  m_after_key : str;
  m_before_value : str;
  m_value : field;
  m_after : str
}.

Definition member_text (m : member) : str :=
  m_before m ++ string_text (m_key m) ++ m_after_key m ++ lit ":"
  ++ m_before_value m ++ field_text (m_value m) ++ m_after m.

Definition member_pair (m : member) : option (str * value) :=
  if blank (m_before m) && blank (m_after_key m)
     && blank (m_before_value m) && blank (m_after m)
  then match string_chars (m_key m), field_value (m_value m) with
       | Some k, Some v => Some (k, v)
       | _, _ => None
       end
  else None.

(** The text of an object with the members [ms], and the key-value pairs
    it denotes when every member is well formed. *)
Definition object_text (ms : list member) : str :=
  [lbrace] ++ join comma (map member_text ms) ++ [rbrace].

Definition object_pairs (ms : list member) : option (list (str * value)) :=
  all_some (map member_pair ms).

(** Members in the layout [json.dumps] writes: raw characters, one space
    after the colon and after each comma. *)
Definition plain (s : string) : list item := map Raw (lit s).

Definition plain_member (first : bool) (key : string) (f : field) : member :=
  {| m_before := if first then [] else lit " ";
     m_key := plain key;
     m_after_key := [];
     m_before_value := lit " ";
     m_value := f;
     m_after := [] |}.

Definition plain_elem (first : bool) (s : string) : elem :=
  {| e_before := if first then [] else lit " ";
     e_items := plain s;
     e_after := [] |}.

(** Fuel that is enough for [scan_once] on a field, and for [object_loop]
    on the members of an object. *)
Definition field_fuel (f : field) : nat :=
  match f with
  | FString _ => 1
  | FArray _ elems => 2 + length elems
  end.

Fixpoint object_fuel (ms : list member) : nat :=
  match ms with
  | [] => 0
  | m :: ms' => S (field_fuel (m_value m) + object_fuel ms')
  end.

(** The text of a member after the opening quote of its key. *)
Definition member_tail (m : member) : str :=
  flat_map item_text (m_key m) ++ dq ++ m_after_key m ++ lit ":"
  ++ m_before_value m ++ field_text (m_value m) ++ m_after m.

(** The object of the specification's examples, in [json.dumps] layout
    with its keys in another order than the prompt lists them. *)
Definition example_members : list member :=
  [ plain_member true "summary" (FString (plain "Happy customer"));
    plain_member false "user_response" (FString (plain "Thanks!"));
    plain_member false "actions"
      (FArray [] [plain_elem true "Keep it up"; plain_elem false "Say thanks"]) ].

Definition example_feedback : StructuredFeedback :=
  {| user_response := VStr (lit "Thanks!");
     summary := VStr (lit "Happy customer");
     actions := VList [VStr (lit "Keep it up"); VStr (lit "Say thanks")] |}.

(** ** The hosted model of [app.py] ([client.text_generation])

    What [client.text_generation] is given: the prompt, [max_new_tokens]
    and the [temperature] literal of the source.  The client is a function
    from the call to the completion, or to the exception it raises. *)
Record generation : Type := {
  gen_prompt : str;
  gen_max_new_tokens : Z;
  gen_temperature : str
}.

(** The f-string of [get_ai_response], cut at its two replacement fields. *)
Definition reply_prompt (user_review : str) (rating : Z) : str :=
  nl ++
  lit "    You are a helpful customer service AI. " ++ nl ++
  lit "    A user just left a " ++ str_int rating ++ lit "-star review: "
  ++ dq ++ user_review ++ dq ++ nl ++
  lit "    Write a short, polite, and personalized response to them." ++ nl ++
  lit "    ".

(** [get_ai_response(user_review, rating)]; the second component lists the
    calls made to the model. *)
Definition get_ai_response
  (text_generation : generation -> result str) (user_review : str) (rating : Z)
  : result str * list generation :=
  let call := {| gen_prompt := reply_prompt user_review rating;
                 gen_max_new_tokens := 100;
                 gen_temperature := lit "0.7" |} in
  match text_generation call with
  | Raise e => (Raise e, [call])
  | Return response => (Return (strip response), [call])
  end.

(** ** The review digest of [app.py] ([analyze_feedback])

    The data frame is seen through the three operations the function uses
    ([empty], [tail(20)], [iterrows]): it is the list of its rows, and a
    row gives the values of its [rating] and [review] cells.  (The frame
    has these columns, so it is empty exactly when it has no row.) *)
Record row : Type := {
  row_rating : value;
  row_review : value
}.

(** [df.tail(n)] *)
Definition df_tail {A : Type} (n : nat) (df : list A) : list A :=
  skipn (length df - n) df.

(** One item of the list comprehension. *)
Definition review_line `{Runtime} (r : row) : str :=
  lit "- " ++ py_str (row_rating r) ++ lit " stars: " ++ py_str (row_review r).

Definition recent_reviews `{Runtime} (df : list row) : str :=
  join nl (map review_line (df_tail 20 df)).

Definition digest_prompt (recent : str) : str :=
  nl ++
  lit "    Analyze the following customer reviews:" ++ nl ++
  lit "    " ++ recent ++ nl ++
  nl ++
  lit "    Output Format:" ++ nl ++
  lit "    1. SUMMARY: (A brief summary of the main sentiment and issues)" ++ nl ++
  lit "    2. ACTIONS: (3 bullet points of recommended next actions for the admin)" ++ nl ++
  lit "    ".

Definition no_data : str * str :=
  (lit "No data to analyze.", lit "No actions needed.").

Definition analyze_feedback `{Runtime}
  (text_generation : generation -> result str) (df : list row)
  : result (str * str) * list generation :=
  match df with
  | [] => (Return no_data, [])
  | _ :: _ =>
      let call := {| gen_prompt := digest_prompt (recent_reviews df);
                     gen_max_new_tokens := 500;
                     gen_temperature := lit "0.5" |} in
      match text_generation call with
      | Raise e => (Raise e, [call])
      | Return analysis => (Return (parse_sections analysis), [call])
      end
  end.

(** ** The canned reply of [1_user_dashboard.py] ([generate_ai_response])

    The delay the function starts with ([time.sleep]) is left out. *)

Definition thanks_for_rating : str := lit "Thank you for the rating!".

Definition balanced_reply : str :=
  lit "Thank you for your balanced feedback. We are constantly trying to improve to turn that 3 stars into 5.".

Definition apology : str :=
  lit "We apologize that your experience wasn't up to standard. Your feedback regarding this issue has been logged for our support team.".

Definition generate_ai_response (rating : Z) (review_text : str) : str :=
  match review_text with
  | [] => thanks_for_rating
  | _ :: _ =>
      if (4 <=? rating)%Z then
        lit "We are thrilled to hear that! Thank you for the " ++ str_int rating
        ++ lit "-star feedback. We're glad you enjoyed: '"
        ++ slice review_text 0 30 ++ lit "...'"
      else if (rating =? 3)%Z then balanced_reply
      else apology
  end.

(** ** The review service client of [2_admin_dashboard.py] *)

(** [s.rstrip(chars)] *)
Fixpoint lstrip_chars (s chars : str) : str :=
  match s with
  | [] => []
  | c :: s' => if has_char c chars then lstrip_chars s' chars else s
  end.

Definition rstrip_chars (s chars : str) : str :=
  rev (lstrip_chars (rev s) chars).

(** The URL of the four client functions, without the record number that
    two of them append. *)
Definition reviews_url (base_url : str) : str :=
  rstrip_chars base_url (lit "/") ++ lit "/reviews".

(** [resp.raise_for_status()]: the client and server error statuses raise
    [HTTPError], which is a [RequestException]. *)
Definition raise_for_status (resp : response) : result unit :=
  if ((400 <=? status_code resp) && (status_code resp <? 600))%Z
  then Raise RequestException
  else Return tt.

(** [fetch_via_api(base_url)]; [get] is [requests.get] with its URL and
    timeout.  Python's [None] is [VNone]. *)
Definition fetch_via_api
  (get : str -> Z -> result response) (base_url : str) : value :=
  match get (reviews_url base_url) 5%Z with
  | Raise _ => VNone
  | Return resp =>
      match raise_for_status resp with
      | Raise _ => VNone
      | Return _ =>
          match response_json resp with
          | Raise _ => VNone
          | Return data => data
          end
      end
  end.

(** [call_api_update(base_url, idx, payload)] and
    [call_api_delete(base_url, idx)] address one record. *)
Definition record_url (base_url : str) (idx : Z) : str :=
  reviews_url base_url ++ lit "/" ++ str_int idx.

(** What the three modifying calls do with the response. *)
Definition checked_json (sent : result response) : result value :=
  match sent with
  | Raise e => Raise e
  | Return resp =>
      match raise_for_status resp with
      | Raise e => Raise e
      | Return _ => response_json resp
      end
  end.

Definition call_api_add
  (post : str -> value -> Z -> result response) (base_url : str) (payload : value)
  : result value :=
  checked_json (post (reviews_url base_url) payload 5%Z).

Definition call_api_update
  (put : str -> value -> Z -> result response)
  (base_url : str) (idx : Z) (payload : value) : result value :=
  checked_json (put (record_url base_url idx) payload 5%Z).

Definition call_api_delete
  (delete : str -> Z -> result response) (base_url : str) (idx : Z)
  : result value :=
  checked_json (delete (record_url base_url idx) 5%Z).

(** ** More notions used in the statements *)

(** A text that neither starts nor ends with white space. *)
Definition trimmed (s : str) : Prop :=
  (forall c t, s = c :: t -> isspace c = false)
  /\ (forall t c, s = t ++ [c] -> isspace c = false).


Definition slash : char := 47%N.

(** Twenty rows, for the examples. *)
Definition example_rows : list row :=
  repeat {| row_rating := VInt 4; row_review := VStr (lit "fine") |} 20.

(** The request [call_llm] sends. *)
Definition llm_request (token prompt : str) (max_new_tokens : Z) : request :=
  {| req_url := API_URL;
     req_authorization := lit "Bearer " ++ token;
     req_inputs := prompt;
     req_max_new_tokens := max_new_tokens;
     req_timeout := 60 |}.

(** A response of the model service that holds [[{"generated_text": null}]]. *)
Definition null_completion : response :=
  {| status_code := 200;
     text := lit "[{" ++ q "generated_text" ++ lit ": null}]" |}.

(** An object that names [summary] twice. *)
Definition twice_summary : list member :=
  [ plain_member true "summary" (FString (plain "first"));
    plain_member false "summary" (FString (plain "second")) ].
(** ** [json.dump] as [storage.py] calls it ([indent=4])

    The encoder of CPython's [json] package with [indent=4] and its other
    settings at their defaults ([ensure_ascii], [allow_nan], item
    separator [","], key separator [": "]), on the values of [value]. *)

(** [ESCAPE_DCT] and the [\uXXXX] escapes of [encode_basestring_ascii]:
    everything but the printable ASCII characters is escaped, a character
    beyond the basic plane as a surrogate pair. *)
Definition escape_char (c : char) : str :=
  if (c =? 34)%N then [92; 34]%N
  else if (c =? 92)%N then [92; 92]%N
  else if (c =? 8)%N then lit "\b"
  else if (c =? 12)%N then lit "\f"
  else if (c =? 10)%N then lit "\n"
  else if (c =? 13)%N then lit "\r"
  else if (c =? 9)%N then lit "\t"
  else if ((32 <=? c) && (c <=? 126))%N then [c]
  else if (c <? 65536)%N then lit "\u" ++ hex_digits 4 c
  else
    let n := (c - 65536)%N in
    let s1 := N.lor 55296 (N.land (N.shiftr n 10) 1023) in
    let s2 := N.lor 56320 (N.land n 1023) in
    lit "\u" ++ hex_digits 4 s1 ++ lit "\u" ++ hex_digits 4 s2.

Definition encode_basestring_ascii (s : str) : str :=
  dq ++ flat_map escape_char s ++ dq.

(** [floatstr]: [float.__repr__], but for the three values that JSON has
    no literal for. *)
Definition floatstr `{Runtime} (lexeme : str) : str :=
  let text := float_repr lexeme in
  if str_eqb text (lit "nan") then lit "NaN"
  else if str_eqb text (lit "inf") then lit "Infinity"
  else if str_eqb text (lit "-inf") then lit "-Infinity"
  else text.

(** A line break and the indentation of a nesting level. *)
Definition newline_indent (level : nat) : str :=
  nl ++ concat (repeat (lit "    ") level).

(** [_iterencode(o, level)], its chunks joined. *)
Fixpoint iterencode `{Runtime} (level : nat) (o : value) : str :=
  match o with
  | VNone => lit "null"
  | VBool true => lit "true"
  | VBool false => lit "false"
  | VInt z => str_int z
  | VFloat lexeme => floatstr lexeme
  | VStr s => encode_basestring_ascii s
  | VList [] => lit "[]"
  | VList lst =>
      lit "[" ++ newline_indent (S level)
      ++ join (lit "," ++ newline_indent (S level))
              (map (iterencode (S level)) lst)
      ++ newline_indent level ++ lit "]"
  | VDict [] => lit "{}"
  | VDict dct =>
      lit "{" ++ newline_indent (S level)
      ++ join (lit "," ++ newline_indent (S level))
              (map (fun kv => encode_basestring_ascii (fst kv) ++ lit ": "
                              ++ iterencode (S level) (snd kv)) dct)
      ++ newline_indent level ++ lit "}"
  end.

(** ** The submissions file ([storage.py])

    The file [submissions.json] is absent ([None]) or a text file with
    the given content. *)

Inductive storage_exn : Type :=
| FileNotJson (m : option decode_msg)
    (* json.JSONDecodeError; no message stands for "Unexpected UTF-8 BOM" *)
| NoAppend      (* AttributeError: the value loaded has no append *)
| FileTooDeep.  (* RecursionError *)

Inductive outcome (A : Type) : Type :=
| Done (a : A)
| Failed (e : storage_exn).
Arguments Done {A} a.
Arguments Failed {A} e.

Definition byte_order_mark : char := 65279%N.

(** [json.load(f)] *)
Definition json_load (content : str) : outcome value :=
  if startswith content [byte_order_mark] then Failed (FileNotJson None)
  else
    match json_loads content with
    | Loaded v => Done v
    | JSONDecodeError m => Failed (FileNotJson (Some m))
    | DepthExceeded => Failed FileTooDeep
    end.

Definition load_submissions (FILE : option str) : outcome value :=
  match FILE with
  | None => Done (VList [])
  | Some content => json_load content
  end.

(** [save_submission(submission)]: what it returns or raises, and the
    file afterwards. *)
Definition save_submission `{Runtime} (FILE : option str) (submission : value)
  : outcome unit * option str :=
  match load_submissions FILE with
  | Failed e => (Failed e, FILE)
  | Done (VList submissions) =>
      (Done tt, Some (iterencode 0 (VList (submissions ++ [submission]))))
  | Done _ => (Failed NoAppend, FILE)
  end.

(** The file after saving the submissions of a list one by one; a save
    that fails leaves the file as it was. *)
Definition save_all `{Runtime} (FILE : option str) (submissions : list value)
  : option str :=
  fold_left (fun f s => snd (save_submission f s)) submissions FILE.

(** *** Values that are written and read back unchanged

    A Unicode scalar value is a code point that is not a surrogate. *)
Definition is_scalar (c : char) : bool :=
  ((c <? 55296) || (57344 <=? c) && (c <=? 1114111))%N.

Fixpoint unique_keys (keys : list str) : bool :=
  match keys with
  | [] => true
  | k :: keys' => negb (existsb (str_eqb k) keys') && unique_keys keys'
  end.

Fixpoint depth (v : value) : nat :=
  match v with
  | VList l => S (fold_right (fun x d => Nat.max (depth x) d) 0 l)
  | VDict d => S (fold_right (fun kv d' => Nat.max (depth (snd kv)) d') 0 d)
  | _ => 0
  end.

(** No [float] (its text is rewritten in the shortest form), texts and
    keys of scalar values only, the keys of every object pairwise
    different (as in every [dict]), and, to stay within the limits of the
    interpreter that the model of [json.loads] leaves out, integers of at
    most 4300 digits. *)
Fixpoint plain_value (v : value) : bool :=
  match v with
  | VNone | VBool _ => true
  | VInt z => (Z.abs z <? 10 ^ 4300)%Z
  | VFloat _ => false
  | VStr s => forallb is_scalar s
  | VList l => forallb plain_value l
  | VDict d =>
      forallb (fun kv => forallb is_scalar (fst kv) && plain_value (snd kv)) d
      && unique_keys (map fst d)
  end.

(** A plain value nested at most 100 levels deep, which is well within
    the recursion limit. *)
Definition storable (v : value) : bool :=
  plain_value v && (depth v <=? 100)%nat.

(** Fuel that is enough for [scan_once] to read the text of a value. *)
Fixpoint value_size (v : value) : nat :=
  match v with
  | VList l => 2 + fold_right (fun x n => value_size x + n) 0 l
  | VDict d => 2 + fold_right (fun kv n => value_size (snd kv) + n) 0 d
  | _ => 1
  end.

Definition example_submission : value :=
  VDict [ (lit "rating", VInt 5);
          (lit "review", VStr (lit "Great food!" ++ [233; 128512]%N));
          (lit "tags", VList [VStr (lit "food"); VNone; VBool true]) ].

(** *** Notions used in the proofs about the encoder *)

(** The decimal digits of a [uint], as a text. *)
Definition digits (d : Decimal.uint) : str := lit (NilEmpty.string_of_uint d).

Definition digit_step (acc : Z) (c : char) : Z := (acc * 10 + Z.of_N (c - 48))%Z.

(** A text that cannot continue a number: it is empty, or starts with a
    character that is neither a digit, a point nor an exponent mark. *)
Definition number_end (rest : str) : bool :=
  match rest with
  | [] => true
  | c :: _ =>
      negb (is_digit c) && negb (c =? 46)%N && negb (c =? 101)%N && negb (c =? 69)%N
  end.

Definition hex4 (c : N) : char * char * char * char :=
  (hex_digit (c / 16 / 16 / 16 mod 16)%N, hex_digit (c / 16 / 16 mod 16)%N,
   hex_digit (c / 16 mod 16)%N, hex_digit (c mod 16)%N).

(** The item of the JSON grammar that [escape_char] writes for [c]. *)
Definition item_of (c : char) : item :=
  if (c =? 34)%N then Esc 34%N
  else if (c =? 92)%N then Esc 92%N
  else if (c =? 8)%N then Esc 98%N
  else if (c =? 12)%N then Esc 102%N
  else if (c =? 10)%N then Esc 110%N
  else if (c =? 13)%N then Esc 114%N
  else if (c =? 9)%N then Esc 116%N
  else if ((32 <=? c) && (c <=? 126))%N then Raw c
  else if (c <? 65536)%N then
    let '(h1, h2, h3, h4) := hex4 c in EscU h1 h2 h3 h4
  else
    let n := (c - 65536)%N in
    let '(h1, h2, h3, h4) := hex4 (N.lor 55296 (N.land (N.shiftr n 10) 1023)) in
    let '(k1, k2, k3, k4) := hex4 (N.lor 56320 (N.land n 1023)) in
    EscPair h1 h2 h3 h4 k1 k2 k3 k4.

(** One entry of an object, as [iterencode] writes it one level down. *)
Definition entry_text `{Runtime} (level : nat) (kv : str * value) : str :=
  encode_basestring_ascii (fst kv) ++ lit ": " ++ iterencode (S level) (snd kv).

Definition item_separator (level : nat) : str :=
  lit "," ++ newline_indent (S level).

(** [scan_once] reads the text of [v] back, whatever follows it. *)
Definition reads_back `{Runtime} (v : value) : Prop :=
  plain_value v = true ->
  forall level n rest,
    value_size v <= n -> number_end rest = true ->
    scan_once n (iterencode level v ++ rest) = Scanned v rest.
(** * Properties *)

(** ** Strings *)

Lemma str_eqb_eq (a b : str) : str_eqb a b = true <-> a = b.
Proof.
  unfold str_eqb. destruct (list_eq_dec N.eq_dec a b); split; congruence.
Qed.

Lemma str_eqb_refl (a : str) : str_eqb a a = true.
Proof. now apply str_eqb_eq. Qed.

Lemma str_eqb_neq (a b : str) : a <> b -> str_eqb a b = false.
Proof.
  unfold str_eqb. destruct (list_eq_dec N.eq_dec a b); congruence.
Qed.

Lemma startswith_app (p t : str) : startswith (p ++ t) p = true.
Proof.
  induction p as [|c p IH]; simpl; [reflexivity|].
  now rewrite N.eqb_refl, IH.
Qed.

Lemma startswith_inv (s p : str) :
  startswith s p = true -> exists t, s = p ++ t.
Proof.
  revert s. induction p as [|c p IH]; intros s H; simpl in *.
  - now exists s.
  - destruct s as [|d s]; [discriminate|].
    apply andb_prop in H as [Hc Hp]. apply N.eqb_eq in Hc. subst d.
    destruct (IH _ Hp) as [t ->]. now exists t.
Qed.

Lemma startswith_iff (s p : str) :
  startswith s p = true <-> exists t, s = p ++ t.
Proof.
  split; [apply startswith_inv|]. intros [t ->]. apply startswith_app.
Qed.

Lemma startswith_nil_l (p : str) : p <> [] -> startswith [] p = false.
Proof. destruct p; [congruence|reflexivity]. Qed.

(** *** [find]: the first occurrence *)

Lemma find_nat_Some (s sub : str) (i : nat) :
  find_nat s sub = Some i ->
  s = firstn i s ++ sub ++ skipn (i + length sub) s.
Proof.
  revert i. induction s as [|c s IH]; intros i; simpl.
  - destruct (startswith [] sub) eqn:E; [|discriminate].
    intros [= <-]. destruct sub; [reflexivity|discriminate].
  - destruct (startswith (c :: s) sub) eqn:E.
    + intros [= <-]. apply startswith_inv in E as [t Ht].
      rewrite Ht at 2. simpl firstn. simpl app at 1. f_equal.
      change (0 + length sub)%nat with (length sub).
      rewrite Ht, skipn_app, skipn_all, Nat.sub_diag. reflexivity.
    + destruct (find_nat s sub) as [j|] eqn:F; [|discriminate].
      intros [= <-]. simpl. f_equal. now apply IH.
Qed.

Lemma find_nat_Some_bound (s sub : str) (i : nat) :
  find_nat s sub = Some i -> i + length sub <= length s.
Proof.
  revert i. induction s as [|c s IH]; intros i; simpl.
  - destruct sub; simpl; [|discriminate]. intros [= <-]. simpl. lia.
  - destruct (startswith (c :: s) sub) eqn:E.
    + intros [= <-]. apply startswith_inv in E as [t Ht].
      apply (f_equal (@length _)) in Ht. rewrite length_app in Ht.
      simpl in *. lia.
    + destruct (find_nat s sub) as [j|] eqn:F; [|discriminate].
      intros [= <-]. specialize (IH _ eq_refl). simpl. lia.
Qed.

Lemma find_nat_None (s sub : str) :
  find_nat s sub = None <-> ~ contains s sub.
Proof.
  split.
  - induction s as [|c s IH]; simpl; intros H [a [b E]].
    + destruct a; [|discriminate]. destruct sub; [|discriminate]. discriminate.
    + destruct (startswith (c :: s) sub) eqn:S; [discriminate|].
      destruct (find_nat s sub) eqn:F; [discriminate|].
      destruct a as [|d a]; simpl in E.
      * rewrite E, startswith_app in S. discriminate.
      * injection E as -> E. apply IH; [reflexivity|]. now exists a, b.
  - intros H. destruct (find_nat s sub) as [i|] eqn:F; [|reflexivity].
    exfalso. apply H. apply find_nat_Some in F.
    now exists (firstn i s), (skipn (i + length sub) s).
Qed.

Lemma startswith_app_short (s t p : str) :
  length p <= length s -> startswith (s ++ t) p = startswith s p.
Proof.
  revert s. induction p as [|c p IH]; intros s H; [reflexivity|].
  destruct s as [|d s]; simpl in *; [lia|].
  rewrite IH by lia. reflexivity.
Qed.

(** An occurrence found in [s] is the first one of [s ++ t] too. *)
Lemma find_nat_app (s t sub : str) (i : nat) :
  find_nat s sub = Some i -> find_nat (s ++ t) sub = Some i.
Proof.
  revert i. induction s as [|c s IH]; intros i F.
  - simpl in F. destruct sub; simpl in F; [|discriminate].
    injection F as <-. destruct t; reflexivity.
  - pose proof (find_nat_Some_bound _ _ _ F) as B.
    simpl app. unfold find_nat in *; fold find_nat in *.
    change (c :: s ++ t) with ((c :: s) ++ t).
    rewrite startswith_app_short by lia.
    destruct (startswith (c :: s) sub); [assumption|].
    destruct (find_nat s sub) as [j|] eqn:Fs; [|discriminate].
    now rewrite (IH _ eq_refl).
Qed.

(** *** Markers without a border *)

Lemma unbordered_b_sound (m : str) : unbordered_b m = true -> unbordered m.
Proof.
  unfold unbordered_b. intros H l u w Hp Hs.
  destruct l as [|c l]; [now left|]. right.
  destruct u as [|d u]; [now rewrite app_nil_r in Hp|]. exfalso.
  rewrite forallb_forall in H.
  assert (Hl : length m = length (c :: l) + length (d :: u))
    by (rewrite Hp at 1; apply length_app).
  assert (Hw : length m = length w + length (c :: l))
    by (rewrite Hs at 1; apply length_app).
  specialize (H (length (c :: l))).
  rewrite in_seq in H. simpl length in *.
  assert (E : negb (str_eqb (firstn (S (length l)) m)
                            (skipn (length m - S (length l)) m)) = true)
    by (apply H; lia).
  rewrite Hp in E at 1. rewrite Hs in E at 2.
  replace (S (length l)) with (length (c :: l)) in E by reflexivity.
  rewrite firstn_app, firstn_all, Nat.sub_diag in E. simpl firstn in E.
  rewrite app_nil_r in E.
  replace (length m - length (c :: l)) with (length w) in E by (simpl; lia).
  rewrite skipn_app, skipn_all, Nat.sub_diag in E. simpl in E.
  rewrite str_eqb_refl in E. discriminate.
Qed.

Lemma find_nat_here (s sub : str) :
  startswith s sub = true -> find_nat s sub = Some 0.
Proof. intros H. destruct s; simpl; now rewrite H. Qed.

(** Before an unbordered marker, nothing starts an occurrence unless the
    text before the marker already holds one. *)
Lemma find_nat_unbordered (a sub b : str) :
  unbordered sub -> sub <> [] ->
  find_nat a sub = None ->
  find_nat (a ++ sub ++ b) sub = Some (length a).
Proof.
  intros U Hne. induction a as [|c a IH]; intros F.
  - change (find_nat (sub ++ b) sub = Some 0).
    apply find_nat_here, startswith_app.
  - simpl in F.
    destruct (startswith (c :: a) sub) eqn:S; [discriminate|].
    destruct (find_nat a sub) eqn:Fa; [discriminate|].
    simpl app. unfold find_nat; fold find_nat.
    rewrite (IH eq_refl).
    destruct (startswith (c :: a ++ sub ++ b) sub) eqn:S2; [|reflexivity].
    exfalso. apply startswith_inv in S2 as [t Ht].
    change (c :: a ++ sub ++ b) with ((c :: a) ++ sub ++ b) in Ht.
    apply app_eq_app in Ht as [l [[H1 H2]|[H1 H2]]].
    + rewrite H1, startswith_app in S. discriminate.
    + symmetry in H2. apply app_eq_app in H2 as [l' [[H3 H4]|[H3 H4]]].
      * apply (f_equal (@length _)) in H1. rewrite H3 in H1.
        rewrite !length_app in H1. simpl in H1. lia.
      * destruct (U l l' (c :: a) H3 H1) as [->| ->].
        -- rewrite app_nil_r in H1. rewrite <- H1 in S.
           rewrite <- (app_nil_r sub) in S at 1.
           rewrite startswith_app in S. discriminate.
        -- apply (f_equal (@length _)) in H1. rewrite length_app in H1.
           simpl in H1. lia.
Qed.

(** *** [split] and [replace], one occurrence at a time *)

Lemma split_n_enough (sep : str) (n m : nat) (s : str) :
  sep <> [] -> length s <= n -> length s <= m ->
  split_n n s sep = split_n m s sep.
Proof.
  intros Hne. revert m s. induction n as [|n IH]; intros m s Hn Hm.
  - destruct s; [|simpl in Hn; lia].
    destruct m; simpl; [reflexivity|]. now rewrite startswith_nil_l.
  - destruct m as [|m].
    + destruct s; [|simpl in Hm; lia]. simpl. now rewrite startswith_nil_l.
    + simpl. destruct (find_nat s sep) as [i|] eqn:F; [|reflexivity].
      f_equal. pose proof (find_nat_Some_bound _ _ _ F) as B.
      assert (0 < length sep) by (destruct sep; [congruence|simpl; lia]).
      apply IH; rewrite length_skipn; lia.
Qed.

Lemma split_found (s sep : str) (i : nat) :
  sep <> [] -> find_nat s sep = Some i ->
  split s sep = firstn i s :: split (skipn (i + length sep) s) sep.
Proof.
  intros Hne F. unfold split.
  pose proof (find_nat_Some_bound _ _ _ F) as B.
  assert (0 < length sep) by (destruct sep; [congruence|simpl; lia]).
  destruct (length s) as [|n] eqn:L; [lia|].
  simpl. rewrite F. f_equal.
  apply split_n_enough; [assumption| |lia].
  rewrite length_skipn. lia.
Qed.

Lemma split_not_found (s sep : str) :
  find_nat s sep = None -> split s sep = [s].
Proof.
  intros F. unfold split. destruct (length s); simpl; [reflexivity|].
  now rewrite F.
Qed.

Lemma replace_n_enough (old new : str) (n m : nat) (s : str) :
  old <> [] -> length s <= n -> length s <= m ->
  replace_n n s old new = replace_n m s old new.
Proof.
  intros Hne. revert m s. induction n as [|n IH]; intros m s Hn Hm.
  - destruct s; [|simpl in Hn; lia].
    destruct m; simpl; [reflexivity|]. now rewrite startswith_nil_l.
  - destruct m as [|m].
    + destruct s; [|simpl in Hm; lia]. simpl. now rewrite startswith_nil_l.
    + simpl. destruct (find_nat s old) as [i|] eqn:F; [|reflexivity].
      do 2 f_equal. pose proof (find_nat_Some_bound _ _ _ F) as B.
      assert (0 < length old) by (destruct old; [congruence|simpl; lia]).
      apply IH; rewrite length_skipn; lia.
Qed.

Lemma replace_found (s old new : str) (i : nat) :
  old <> [] -> find_nat s old = Some i ->
  replace s old new
  = firstn i s ++ new ++ replace (skipn (i + length old) s) old new.
Proof.
  intros Hne F. unfold replace.
  pose proof (find_nat_Some_bound _ _ _ F) as B.
  assert (0 < length old) by (destruct old; [congruence|simpl; lia]).
  destruct (length s) as [|n] eqn:L; [lia|].
  simpl. rewrite F. do 2 f_equal.
  apply replace_n_enough; [assumption| |lia].
  rewrite length_skipn. lia.
Qed.

Lemma replace_not_found (s old new : str) :
  find_nat s old = None -> replace s old new = s.
Proof.
  intros F. unfold replace. destruct (length s); simpl; [reflexivity|].
  now rewrite F.
Qed.

(** [firstn] and [skipn] around the marker found at the end of [a]. *)
Lemma firstn_marker (a sub b : str) :
  firstn (length a) (a ++ sub ++ b) = a.
Proof.
  rewrite firstn_app, firstn_all, Nat.sub_diag. simpl. apply app_nil_r.
Qed.

Lemma skipn_marker (a sub b : str) :
  skipn (length a + length sub) (a ++ sub ++ b) = b.
Proof.
  rewrite app_assoc, <- length_app, skipn_app, skipn_all, Nat.sub_diag.
  reflexivity.
Qed.

(** Deleting an unbordered marker: an occurrence between any two texts
    goes, and the two texts are processed on their own. *)
Lemma replace_delete_app (m x y : str) :
  unbordered m -> m <> [] ->
  replace (x ++ m ++ y) m [] = replace x m [] ++ replace y m [].
Proof.
  intros U Hne. remember (length x) as n eqn:Hn.
  revert x Hn. induction n as [n IH] using lt_wf_ind. intros x Hn.
  destruct (find_nat x m) as [i|] eqn:F.
  - pose proof (find_nat_Some _ _ _ F) as E.
    pose proof (find_nat_Some_bound _ _ _ F) as B.
    assert (0 < length m) by (destruct m; [congruence|simpl; lia]).
    rewrite (replace_found x m [] i Hne F).
    rewrite (replace_found (x ++ m ++ y) m [] i Hne (find_nat_app _ _ _ _ F)).
    simpl app. rewrite firstn_app.
    replace (i - length x) with 0 by lia. simpl firstn. rewrite app_nil_r.
    rewrite <- app_assoc. f_equal.
    rewrite skipn_app.
    replace (i + length m - length x) with 0 by lia. simpl skipn.
    apply (IH (length (skipn (i + length m) x))); [|reflexivity].
    rewrite length_skipn. lia.
  - rewrite (replace_not_found x m [] F).
    rewrite (replace_found _ m [] _ Hne (find_nat_unbordered x m y U Hne F)).
    now rewrite firstn_marker, skipn_marker.
Qed.

(** *** [strip] *)

Lemma rstrip_snoc_space (s : str) (c : char) :
  isspace c = true -> rstrip (s ++ [c]) = rstrip s.
Proof.
  intros H. unfold rstrip. rewrite rev_app_distr. simpl. now rewrite H.
Qed.

Lemma rstrip_snoc_nonspace (s : str) (c : char) :
  isspace c = false -> rstrip (s ++ [c]) = s ++ [c].
Proof.
  intros H. unfold rstrip. rewrite rev_app_distr. simpl. rewrite H.
  simpl. now rewrite rev_involutive.
Qed.

Lemma lstrip_nonspace (c : char) (s : str) :
  isspace c = false -> lstrip (c :: s) = c :: s.
Proof. intros H. simpl. now rewrite H. Qed.

(** Single characters: [In] and the indices [find] and [rfind] return. *)

Lemma startswith_char (s : str) (c : char) :
  startswith s [c] = match s with d :: _ => N.eqb c d | [] => false end.
Proof. destruct s; simpl; [reflexivity|]. apply andb_true_r. Qed.

Lemma find_char_first (s : str) (c : char) :
  In c s ->
  exists a b, s = a ++ c :: b /\ ~ In c a /\ find_nat s [c] = Some (length a).
Proof.
  induction s as [|d s IH]; intros H; [destruct H|].
  destruct (N.eq_dec c d) as [->|Hn].
  - exists [], s. repeat split; [intros []|].
    simpl. now rewrite N.eqb_refl.
  - destruct H as [H|H]; [congruence|].
    destruct (IH H) as [a [b [E [Ha F]]]].
    exists (d :: a), b. repeat split.
    + simpl. now f_equal.
    + intros [K|K]; [congruence|tauto].
    + unfold find_nat; fold find_nat. rewrite startswith_char.
      apply N.eqb_neq in Hn. rewrite Hn, F. reflexivity.
Qed.

Lemma find_char_none (s : str) (c : char) :
  ~ In c s <-> find_nat s [c] = None.
Proof.
  rewrite find_nat_None. split.
  - intros H [a [b E]]. apply H. rewrite E. apply in_or_app. right. now left.
  - intros H K. apply H. apply in_split in K as [a [b ->]]. now exists a, b.
Qed.

Lemma rfind_char_none (s : str) (c : char) :
  ~ In c s <-> rfind_nat s [c] = None.
Proof.
  induction s as [|d s IH]; simpl.
  - split; [reflexivity|intros _ []].
  - rewrite andb_true_r. split.
    + intros H. destruct IH as [IH _]. rewrite IH by tauto.
      destruct (N.eqb_spec c d); [subst; tauto|reflexivity].
    + destruct (rfind_nat s [c]) eqn:R; [discriminate|].
      destruct (N.eqb_spec c d); [discriminate|].
      intros _ [K|K]; [congruence|]. now apply IH in K.
Qed.

Lemma rfind_char_last (s : str) (c : char) :
  In c s ->
  exists a b, s = a ++ c :: b /\ ~ In c b /\ rfind_nat s [c] = Some (length a).
Proof.
  induction s as [|d s IH]; intros H; [destruct H|].
  destruct (in_dec N.eq_dec c s) as [Hs|Hs].
  - destruct (IH Hs) as [a [b [E [Hb R]]]].
    exists (d :: a), b. repeat split; [simpl; now f_equal|assumption|].
    simpl. now rewrite R.
  - destruct H as [H|H]; [subst d|contradiction].
    exists [], s. repeat split; [assumption|].
    simpl. apply rfind_char_none in Hs. rewrite Hs.
    now rewrite N.eqb_refl.
Qed.
(** ** The prompt builder *)

Lemma strip_framed (w1 c1 : char) (h body t : str) (c2 w2 : char) :
  isspace w1 = true -> isspace c1 = false ->
  isspace c2 = false -> isspace w2 = true ->
  strip ((w1 :: c1 :: h) ++ body ++ (t ++ [c2]) ++ [w2])
  = (c1 :: h) ++ body ++ t ++ [c2].
Proof.
  intros H1 H2 H3 H4. unfold strip. simpl. rewrite H1, H2.
  change (c1 :: h ++ body ++ (t ++ [c2]) ++ [w2])
    with ((c1 :: h) ++ body ++ (t ++ [c2]) ++ [w2]).
  rewrite !app_assoc. rewrite rstrip_snoc_space by assumption.
  now rewrite rstrip_snoc_nonspace by assumption.
Qed.

Lemma build_prompt_shape (rating : Z) (review : str) :
  build_prompt rating review
  = prompt_head ++ str_int rating ++ template_mid ++ review ++ prompt_tail.
Proof.
  unfold build_prompt.
  assert (Hh : template_head = 10%N :: 89%N :: tl prompt_head)
    by (vm_compute; reflexivity).
  assert (Hp : prompt_head = 89%N :: tl prompt_head) by (vm_compute; reflexivity).
  assert (Ht : template_tail = (removelast prompt_tail ++ [58%N]) ++ [10%N])
    by (vm_compute; reflexivity).
  assert (Hq : prompt_tail = removelast prompt_tail ++ [58%N])
    by (vm_compute; reflexivity).
  rewrite Hq, Hp, Hh, Ht.
  generalize (tl prompt_head) (removelast prompt_tail). intros h t.
  rewrite (app_assoc (str_int rating)), (app_assoc _ review).
  rewrite strip_framed by reflexivity.
  now rewrite <- !app_assoc.
Qed.

Lemma str_int_examples :
  str_int 5 = lit "5" /\ str_int 0 = lit "0" /\ str_int (-12) = lit "-12".
Proof. repeat split. Qed.

(** C8. [build_prompt] is a function of its two arguments alone; for every
    integer rating and every review text its result is the fixed template
    around them, so it contains ["Rating: "] followed by the rating in
    decimal, contains the review verbatim (braces and quotes included,
    nothing cut or escaped) and ends in ["JSON:"]; so does the prompt for
    rating 5 and review ["Great food!"]. *)
Theorem build_prompt_embeds_inputs (rating : Z) (review : str) :
  build_prompt rating review
  = prompt_head ++ str_int rating ++ template_mid ++ review ++ prompt_tail
  /\ contains (build_prompt rating review) (lit "Rating: " ++ str_int rating)
  /\ contains (build_prompt rating review) review
  /\ ends_with (build_prompt rating review) (lit "JSON:")
  /\ contains (build_prompt 5 (lit "Great food!")) (lit "Rating: 5")
  /\ contains (build_prompt 5 (lit "Great food!")) (lit "Great food!")
  /\ ends_with (build_prompt 5 (lit "Great food!")) (lit "JSON:").
Proof.
  assert (Hr : exists h, prompt_head = h ++ lit "Rating: ")
    by (exists (firstn (length prompt_head - 8) prompt_head);
        vm_compute; reflexivity).
  assert (Hj : exists t, prompt_tail = t ++ lit "JSON:")
    by (exists (firstn (length prompt_tail - 5) prompt_tail);
        vm_compute; reflexivity).
  destruct Hr as [h Hr], Hj as [t Hj].
  assert (G : forall r v,
             contains (build_prompt r v) (lit "Rating: " ++ str_int r)
             /\ contains (build_prompt r v) v
             /\ ends_with (build_prompt r v) (lit "JSON:")).
  { intros r v. rewrite build_prompt_shape. repeat split.
    - exists h, (template_mid ++ v ++ prompt_tail).
      rewrite Hr. now rewrite <- !app_assoc.
    - exists (prompt_head ++ str_int r ++ template_mid), prompt_tail.
      now rewrite <- !app_assoc.
    - exists (prompt_head ++ str_int r ++ template_mid ++ v ++ t).
      rewrite Hj. now rewrite <- !app_assoc. }
  split; [apply build_prompt_shape|].
  destruct (G rating review) as [G1 [G2 G3]].
  destruct (G 5%Z (lit "Great food!")) as [K1 [K2 K3]].
  repeat split; assumption.
Qed.

(** ** Section-header interpretation *)

Lemma ACTIONS_unbordered : unbordered ACTIONS.
Proof. apply unbordered_b_sound. reflexivity. Qed.

Lemma SUMMARY_unbordered : unbordered SUMMARY.
Proof. apply unbordered_b_sound. reflexivity. Qed.

Lemma ACTIONS_nonempty : ACTIONS <> [].
Proof. discriminate. Qed.

Lemma SUMMARY_nonempty : SUMMARY <> [].
Proof. discriminate. Qed.

(** With a marker after [a], and none in [a], the split starts with [a]. *)
Lemma split_at_first_marker (a b : str) :
  ~ contains a ACTIONS ->
  split (a ++ ACTIONS ++ b) ACTIONS = a :: split b ACTIONS.
Proof.
  intros H. apply find_nat_None in H.
  pose proof (find_nat_unbordered a ACTIONS b ACTIONS_unbordered
                ACTIONS_nonempty H) as F.
  rewrite (split_found _ _ _ ACTIONS_nonempty F).
  now rewrite firstn_marker, skipn_marker.
Qed.

Lemma split_head_cases (b : str) :
  exists p ps, split b ACTIONS = p :: ps.
Proof.
  destruct (find_nat b ACTIONS) as [i|] eqn:F.
  - rewrite (split_found _ _ _ ACTIONS_nonempty F). eauto.
  - rewrite (split_not_found _ _ F). eauto.
Qed.

(** C6, as the code has it. [split] cuts at every [ACTIONS:] marker, so
    when the text before the first marker is [a] and the text after it is
    [b], the summary is [a] with every [SUMMARY:] removed, trimmed, and the
    actions are the trimmed text between the first marker and the next one:
    all of [b] when [b] holds no marker, only [b1] when [b] is
    [b1 ++ "ACTIONS:" ++ b2] with no marker in [b1]. *)
Theorem parse_sections_with_marker (a b : str) :
  ~ contains a ACTIONS ->
  fst (parse_sections (a ++ ACTIONS ++ b)) = strip (replace a SUMMARY [])
  /\ snd (parse_sections (a ++ ACTIONS ++ b)) = strip (before_marker b)
  /\ (~ contains b ACTIONS ->
      snd (parse_sections (a ++ ACTIONS ++ b)) = strip b)
  /\ (forall b1 b2, b = b1 ++ ACTIONS ++ b2 -> ~ contains b1 ACTIONS ->
      snd (parse_sections (a ++ ACTIONS ++ b)) = strip b1).
Proof.
  intros Ha. unfold parse_sections, before_marker.
  rewrite (split_at_first_marker a b Ha).
  destruct (split_head_cases b) as [p [ps E]]. rewrite E.
  cbn [fst snd nth length Nat.ltb Nat.leb].
  repeat split.
  - intros Hb. apply find_nat_None in Hb.
    rewrite (split_not_found _ _ Hb) in E. now injection E as <- _.
  - intros b1 b2 Hb Hb1. rewrite Hb in E.
    rewrite (split_at_first_marker b1 b2 Hb1) in E. now injection E as <- _.
Qed.

(** C6 on the text of the specification's example. *)
Lemma parse_sections_with_marker_witness :
  ~ contains (lit "SUMMARY: great day ") ACTIONS
  /\ parse_sections
       (lit "SUMMARY: great day " ++ ACTIONS ++ lit " - do X" ++ nl ++ lit "- do Y")
     = (lit "great day", lit "- do X" ++ nl ++ lit "- do Y").
Proof.
  assert (H : ~ contains (lit "SUMMARY: great day ") ACTIONS)
    by (apply find_nat_None; reflexivity).
  split; [exact H|].
  destruct (parse_sections_with_marker
              (lit "SUMMARY: great day ") (lit " - do X" ++ nl ++ lit "- do Y") H)
    as [E1 [E2 _]].
  rewrite (surjective_pairing (parse_sections _)), E1, E2. reflexivity.
Defined.

(** C6 fails as stated: with two markers in the text, the actions stop at
    the second marker instead of running to the end of the text. *)
Lemma parse_sections_stops_at_second_marker :
  exists a b,
    lit "SUMMARY: s ACTIONS: x ACTIONS: y" = a ++ ACTIONS ++ b
    /\ ~ contains a ACTIONS
    /\ snd (parse_sections (a ++ ACTIONS ++ b)) = lit "x"
    /\ strip b = lit "x ACTIONS: y"
    /\ snd (parse_sections (a ++ ACTIONS ++ b)) <> strip b.
Proof.
  exists (lit "SUMMARY: s "), (lit " x ACTIONS: y").
  split; [reflexivity|]. split; [apply find_nat_None; reflexivity|].
  split; [reflexivity|]. split; [reflexivity|]. discriminate.
Qed.

(** C7. The section-header interpretation has no failure: for every text
    it returns a pair of texts; when the text holds no [ACTIONS:] marker
    the actions are the fixed fallback and the summary is the whole text
    with every [SUMMARY:] removed, trimmed. *)
Theorem parse_sections_without_marker (raw : str) :
  (exists summary actions, parse_sections raw = (summary, actions))
  /\ (~ contains raw ACTIONS ->
      parse_sections raw = (strip (replace raw SUMMARY []), actions_fallback)).
Proof.
  split.
  - exists (fst (parse_sections raw)), (snd (parse_sections raw)).
    apply surjective_pairing.
  - intros H. apply find_nat_None in H.
    unfold parse_sections. now rewrite (split_not_found _ _ H).
Qed.

(** C7 on a text without the marker. *)
Lemma parse_sections_without_marker_witness :
  ~ contains (lit " SUMMARY: all good ") ACTIONS
  /\ parse_sections (lit " SUMMARY: all good ")
     = (lit "all good", lit "Could not parse actions.").
Proof.
  assert (H : ~ contains (lit " SUMMARY: all good ") ACTIONS)
    by (apply find_nat_None; reflexivity).
  split; [exact H|].
  rewrite (proj2 (parse_sections_without_marker _) H). reflexivity.
Defined.

(** C10. The summary is read from the text before the first [ACTIONS:]
    marker by deleting [SUMMARY:] wherever it occurs: whatever stands
    before ([x]) and after ([y]) an occurrence, the occurrence is gone and
    [x] and [y] are treated in the same way, so inner occurrences go too. *)
Theorem parse_sections_deletes_every_summary_marker (raw x y : str) :
  before_marker raw = x ++ SUMMARY ++ y ->
  fst (parse_sections raw)
  = strip (replace x SUMMARY [] ++ replace y SUMMARY []).
Proof.
  intros H. unfold parse_sections. cbv zeta. cbn [fst].
  fold (before_marker raw). rewrite H.
  now rewrite (replace_delete_app SUMMARY x y SUMMARY_unbordered SUMMARY_nonempty).
Qed.

(** C10 on a text with two [SUMMARY:] markers before [ACTIONS:]. *)
Lemma parse_sections_deletes_every_summary_marker_witness :
  before_marker (lit "SUMMARY: fine SUMMARY: day ACTIONS: none")
  = lit "SUMMARY: fine " ++ SUMMARY ++ lit " day "
  /\ fst (parse_sections (lit "SUMMARY: fine SUMMARY: day ACTIONS: none"))
     = lit "fine  day".
Proof.
  assert (H : before_marker (lit "SUMMARY: fine SUMMARY: day ACTIONS: none")
              = lit "SUMMARY: fine " ++ SUMMARY ++ lit " day ")
    by reflexivity.
  split; [exact H|].
  rewrite (parse_sections_deletes_every_summary_marker _ _ _ H). reflexivity.
Defined.
(** ** Strict interpretation: the candidate span *)

Lemma find_char_app (a b : str) (c : char) :
  ~ In c a -> find_nat (a ++ c :: b) [c] = Some (length a).
Proof.
  induction a as [|d a IH]; intros H.
  - simpl. now rewrite N.eqb_refl.
  - simpl app. unfold find_nat; fold find_nat. rewrite startswith_char.
    destruct (N.eqb_spec c d) as [->|_]; [exfalso; apply H; now left|].
    rewrite IH; [reflexivity|]. intros K. apply H. now right.
Qed.

Lemma rfind_char_app (a b : str) (c : char) :
  ~ In c b -> rfind_nat (a ++ c :: b) [c] = Some (length a).
Proof.
  intros H. induction a as [|d a IH].
  - simpl. apply rfind_char_none in H. rewrite H. now rewrite N.eqb_refl.
  - simpl. now rewrite IH.
Qed.

Lemma slice_middle (a x b : str) :
  slice (a ++ x ++ b) (Z.of_nat (length a)) (Z.of_nat (length a + length x)) = x.
Proof.
  unfold slice, clamp. rewrite !length_app.
  destruct (Z.ltb_spec (Z.of_nat (length a)) 0); [lia|].
  destruct (Z.ltb_spec (Z.of_nat (length a + length x)) 0); [lia|].
  rewrite !Z.min_l by lia. rewrite !Nat2Z.id.
  replace (length a + length x - length a) with (length x) by lia.
  rewrite skipn_app, skipn_all, Nat.sub_diag. simpl.
  now rewrite firstn_app, firstn_all, Nat.sub_diag, firstn_O, app_nil_r.
Qed.

(** The text between the first [{] and the last [}], when the text has
    that shape. *)
Lemma parse_llm_json_span (a m b : str) :
  ~ In lbrace a -> ~ In rbrace b ->
  find (a ++ [lbrace] ++ m ++ [rbrace] ++ b) (lit "{") = Z.of_nat (length a)
  /\ rfind (a ++ [lbrace] ++ m ++ [rbrace] ++ b) (lit "}")
     = Z.of_nat (length a + 1 + length m)
  /\ parse_llm_json (a ++ [lbrace] ++ m ++ [rbrace] ++ b)
     = parse_span ([lbrace] ++ m ++ [rbrace]).
Proof.
  intros Ha Hb.
  assert (F : find (a ++ [lbrace] ++ m ++ [rbrace] ++ b) (lit "{")
              = Z.of_nat (length a)).
  { unfold find. change (lit "{") with [lbrace]. simpl app.
    now rewrite find_char_app. }
  assert (R : rfind (a ++ [lbrace] ++ m ++ [rbrace] ++ b) (lit "}")
              = Z.of_nat (length a + 1 + length m)).
  { unfold rfind. change (lit "}") with [rbrace].
    replace (a ++ [lbrace] ++ m ++ [rbrace] ++ b)
      with ((a ++ [lbrace] ++ m) ++ rbrace :: b)
      by (now rewrite <- !app_assoc).
    rewrite rfind_char_app by assumption.
    rewrite !length_app. simpl. f_equal. lia. }
  repeat split; try assumption.
  unfold parse_llm_json. rewrite F, R.
  destruct (Z.eqb_spec (Z.of_nat (length a)) (-1)); [lia|].
  destruct (Z.eqb_spec (Z.of_nat (length a + 1 + length m)) (-1)); [lia|].
  destruct (Z.leb_spec (Z.of_nat (length a + 1 + length m))
                       (Z.of_nat (length a))); [lia|].
  cbn [orb].
  replace (Z.of_nat (length a + 1 + length m) + 1)%Z
    with (Z.of_nat (length a + length ([lbrace] ++ m ++ [rbrace])))
    by (rewrite !length_app; simpl; lia).
  replace (a ++ [lbrace] ++ m ++ [rbrace] ++ b)
    with (a ++ ([lbrace] ++ m ++ [rbrace]) ++ b)
    by (now rewrite <- !app_assoc).
  rewrite slice_middle. reflexivity.
Qed.

(** A text with a [{] before its last [}] has that shape. *)
Lemma brace_span_exists (raw : str) :
  In lbrace raw -> In rbrace raw ->
  (find raw (lit "{") < rfind raw (lit "}"))%Z ->
  exists a m b, raw = a ++ [lbrace] ++ m ++ [rbrace] ++ b
                /\ ~ In lbrace a /\ ~ In rbrace b.
Proof.
  intros Hl Hr Hlt.
  destruct (find_char_first raw lbrace Hl) as [a [b0 [E1 [Ha F]]]].
  destruct (rfind_char_last raw rbrace Hr) as [a' [b [E2 [Hb R]]]].
  unfold find, rfind in Hlt. change (lit "{") with [lbrace] in Hlt.
  change (lit "}") with [rbrace] in Hlt. rewrite F, R in Hlt. simpl in Hlt.
  assert (E : a ++ lbrace :: b0 = a' ++ rbrace :: b) by congruence.
  apply app_eq_app in E as [l [[H1 H2]|[H1 H2]]].
  - apply (f_equal (@length _)) in H1. rewrite length_app in H1. lia.
  - destruct l as [|c m].
    + rewrite app_nil_r in H1. subst a'. lia.
    + injection H2 as <- H2. exists a, m, b. repeat split; try assumption.
      rewrite E2, H1. now rewrite <- app_assoc.
Qed.

Lemma parse_span_not_no_json (json_str : str) :
  parse_span json_str <> Raise (LLMErr NoJsonFound).
Proof. unfold parse_span. destruct (json_loads json_str); discriminate. Qed.

Lemma find_minus1 (s : str) (c : char) : find s [c] = (-1)%Z <-> ~ In c s.
Proof.
  unfold find. rewrite find_char_none.
  destruct (find_nat s [c]); simpl; split; try congruence; lia.
Qed.

Lemma rfind_minus1 (s : str) (c : char) : rfind s [c] = (-1)%Z <-> ~ In c s.
Proof.
  unfold rfind. rewrite rfind_char_none.
  destruct (rfind_nat s [c]); simpl; split; try congruence; lia.
Qed.

Lemma no_span_raises (raw : str) :
  ~ In lbrace raw \/ ~ In rbrace raw
  \/ (rfind raw (lit "}") <= find raw (lit "{"))%Z ->
  parse_llm_json raw = Raise (LLMErr NoJsonFound).
Proof.
  intros H. unfold parse_llm_json.
  destruct H as [H|[H|H]].
  - apply find_minus1 in H. change [lbrace] with (lit "{") in H.
    now rewrite H.
  - apply rfind_minus1 in H. change [rbrace] with (lit "}") in H.
    rewrite H. now rewrite orb_true_r.
  - apply Z.leb_le in H. rewrite H. now rewrite !orb_true_r.
Qed.

Lemma span_parsed (raw : str) :
  parse_llm_json raw <> Raise (LLMErr NoJsonFound) ->
  exists a m b, raw = a ++ [lbrace] ++ m ++ [rbrace] ++ b
                /\ ~ In lbrace a /\ ~ In rbrace b
                /\ parse_llm_json raw = parse_span ([lbrace] ++ m ++ [rbrace]).
Proof.
  intros N.
  destruct (in_dec N.eq_dec lbrace raw) as [Hl|Hl];
    [|exfalso; apply N, no_span_raises; tauto].
  destruct (in_dec N.eq_dec rbrace raw) as [Hr|Hr];
    [|exfalso; apply N, no_span_raises; tauto].
  destruct (Z.le_gt_cases (rfind raw (lit "}")) (find raw (lit "{")))
    as [Hle|Hgt]; [exfalso; apply N, no_span_raises; tauto|].
  destruct (brace_span_exists raw Hl Hr Hgt) as [a [m [b [E [Ha Hb]]]]].
  exists a, m, b. repeat split; try assumption.
  rewrite E. now apply parse_llm_json_span.
Qed.

(** C4. [parse_llm_json] raises the "no JSON object" error exactly when
    the text has no [{], or has no [}], or its last [}] is not after its
    first [{] ([find] and [rfind] give the first and the last index); in
    every other case the text is [a ++ "{" ++ m ++ "}" ++ b] with no [{] in
    [a] and no [}] in [b], and the outcome is that of parsing
    ["{" ++ m ++ "}"]. *)
Theorem parse_llm_json_no_json_found (raw : str) :
  (parse_llm_json raw = Raise (LLMErr NoJsonFound)
   <-> ~ In lbrace raw \/ ~ In rbrace raw
       \/ (rfind raw (lit "}") <= find raw (lit "{"))%Z)
  /\ (In lbrace raw ->
      exists a b, raw = a ++ lbrace :: b /\ ~ In lbrace a
                  /\ find raw (lit "{") = Z.of_nat (length a))
  /\ (In rbrace raw ->
      exists a b, raw = a ++ rbrace :: b /\ ~ In rbrace b
                  /\ rfind raw (lit "}") = Z.of_nat (length a))
  /\ (parse_llm_json raw <> Raise (LLMErr NoJsonFound) ->
      exists a m b, raw = a ++ [lbrace] ++ m ++ [rbrace] ++ b
                    /\ ~ In lbrace a /\ ~ In rbrace b
                    /\ parse_llm_json raw = parse_span ([lbrace] ++ m ++ [rbrace])).
Proof.
  repeat split.
  - intros H.
    destruct (in_dec N.eq_dec lbrace raw) as [Hl|Hl]; [|tauto].
    destruct (in_dec N.eq_dec rbrace raw) as [Hr|Hr]; [|tauto].
    destruct (Z.le_gt_cases (rfind raw (lit "}")) (find raw (lit "{")))
      as [Hle|Hgt]; [tauto|].
    exfalso.
    destruct (brace_span_exists raw Hl Hr Hgt) as [a [m [b [E [Ha Hb]]]]].
    destruct (parse_llm_json_span a m b Ha Hb) as [_ [_ P]].
    rewrite E, P in H. now apply parse_span_not_no_json in H.
  - apply no_span_raises.
  - intros Hl. destruct (find_char_first raw lbrace Hl) as [a [b [E [Ha F]]]].
    exists a, b. repeat split; try assumption.
    unfold find. change (lit "{") with [lbrace]. now rewrite F.
  - intros Hr. destruct (rfind_char_last raw rbrace Hr) as [a [b [E [Hb R]]]].
    exists a, b. repeat split; try assumption.
    unfold rfind. change (lit "}") with [rbrace]. now rewrite R.
  - apply span_parsed.
Qed.

(** C4 on a text without a closing brace and on a text with a span. *)
Lemma parse_llm_json_no_json_found_witness :
  parse_llm_json (lit "no closing {brace") = Raise (LLMErr NoJsonFound)
  /\ exists a m b,
       lit "so: {} done" = a ++ [lbrace] ++ m ++ [rbrace] ++ b
       /\ ~ In lbrace a /\ ~ In rbrace b
       /\ parse_llm_json (lit "so: {} done") = parse_span ([lbrace] ++ m ++ [rbrace]).
Proof.
  split.
  - apply (proj2 (proj1 (parse_llm_json_no_json_found (lit "no closing {brace")))).
    right. left. apply rfind_minus1. reflexivity.
  - apply (proj2 (proj2 (proj2 (parse_llm_json_no_json_found (lit "so: {} done"))))).
    vm_compute. discriminate.
Defined.
(** ** [json.loads]: unfolding and the shape of an object *)

Lemma scan_once_S (n : nat) (s : str) :
  scan_once (S n) s =
  match s with
  | [] => Invalid ExpectingValue
  | c :: s1 =>
      if (c =? 34)%N then
        match scanstring s1 [] with
        | Scanned k rest => Scanned (VStr k) rest
        | Invalid m => Invalid m
        | Exhausted => Exhausted
        end
      else if (c =? 123)%N then
        match skip_ws s1 with
        | [] => Invalid ExpectingPropertyName
        | d :: s2 =>
            if (d =? 125)%N then Scanned (VDict []) s2
            else if (d =? 34)%N then object_loop n s2 []
            else Invalid ExpectingPropertyName
        end
      else if (c =? 91)%N then
        match skip_ws s1 with
        | [] => Invalid ExpectingValue
        | d :: s2 =>
            if (d =? 93)%N then Scanned (VList []) s2
            else array_loop n (d :: s2) []
        end
      else scan_literal s
  end.
Proof. reflexivity. Qed.

Lemma object_loop_S (n : nat) (s : str) (pairs : list (str * value)) :
  object_loop (S n) s pairs =
  match scanstring s [] with
  | Invalid m => Invalid m
  | Exhausted => Exhausted
  | Scanned key s1 =>
      match skip_ws s1 with
      | [] => Invalid ExpectingColon
      | c :: s2 =>
          if negb (c =? 58)%N then Invalid ExpectingColon
          else
            match scan_once n (skip_ws s2) with
            | Invalid m => Invalid m
            | Exhausted => Exhausted
            | Scanned v s3 =>
                let pairs' := pairs ++ [(key, v)] in
                match skip_ws s3 with
                | [] => Invalid ExpectingComma
                | d :: s4 =>
                    if (d =? 125)%N then Scanned (VDict (dict_of_pairs pairs')) s4
                    else if negb (d =? 44)%N then Invalid ExpectingComma
                    else
                      match skip_ws s4 with
                      | [] => Invalid ExpectingPropertyName
                      | e :: s5 =>
                          if (e =? 34)%N then object_loop n s5 pairs'
                          else Invalid ExpectingPropertyName
                      end
                end
            end
      end
  end.
Proof. reflexivity. Qed.

Lemma array_loop_S (n : nat) (s : str) (values : list value) :
  array_loop (S n) s values =
  match scan_once n s with
  | Invalid m => Invalid m
  | Exhausted => Exhausted
  | Scanned v s1 =>
      let values' := values ++ [v] in
      match skip_ws s1 with
      | [] => Invalid ExpectingComma
      | d :: s2 =>
          if (d =? 93)%N then Scanned (VList values') s2
          else if negb (d =? 44)%N then Invalid ExpectingComma
          else array_loop n (skip_ws s2) values'
      end
  end.
Proof. reflexivity. Qed.

Ltac break_match :=
  match goal with
  | H : context [match ?x with _ => _ end] |- _ => destruct x eqn:?
  | H : context [if ?x then _ else _] |- _ => destruct x eqn:?
  end.

(** What [object_loop] returns is a [dict]. *)
Lemma object_loop_dict (fuel : nat) :
  forall s pairs v rest,
    object_loop fuel s pairs = Scanned v rest -> exists d, v = VDict d.
Proof.
  induction fuel as [|n IH]; intros s pairs v rest H; [discriminate|].
  rewrite object_loop_S in H. cbv zeta in H.
  repeat (break_match; try discriminate).
  - injection H as <- _. eauto.
  - eapply IH; eassumption.
Qed.

(** A text that opens with a brace decodes to a [dict], if it decodes. *)
Lemma json_loads_brace_dict (s : str) (v : value) :
  json_loads (lbrace :: s) = Loaded v -> exists d, v = VDict d.
Proof.
  unfold json_loads. change (skip_ws (lbrace :: s)) with (lbrace :: s).
  replace (2 * length (lbrace :: s) + 1) with (S (2 * length (lbrace :: s)))
    by lia.
  rewrite scan_once_S. change (lbrace =? 34)%N with false.
  change (lbrace =? 123)%N with true. cbv iota.
  intros H. repeat (break_match; try discriminate).
  - injection H as <-. injection Heqs0 as <- _. eauto.
  - injection H as <-. eapply object_loop_dict; eassumption.
Qed.

Lemma parse_llm_json_is_dict (raw : str) (data : value) :
  parse_llm_json raw = Return data -> exists d, data = VDict d.
Proof.
  intros H.
  destruct (span_parsed raw) as [a [m [b [_ [_ [_ E]]]]]]; [congruence|].
  rewrite E in H. unfold parse_span in H.
  destruct (json_loads ([lbrace] ++ m ++ [rbrace])) eqn:L; try discriminate.
  injection H as ->. eapply json_loads_brace_dict. exact L.
Qed.

(** Whatever [parse_llm_json] returns is a [dict]: the candidate text opens
    with a brace, which [json.loads] only decodes to an object. *)
Lemma parse_llm_json_dict (raw : str) (data : value) :
  parse_llm_json raw = Return data -> exists d, data = VDict d.
Proof. apply parse_llm_json_is_dict. Qed.

Lemma parse_llm_json_dict_witness :
  parse_llm_json (lit "so: {} done") = Return (VDict [])
  /\ exists d, VDict [] = VDict d.
Proof.
  assert (H : parse_llm_json (lit "so: {} done") = Return (VDict []))
    by reflexivity.
  split; [exact H|].
  exact (parse_llm_json_dict _ _ H).
Defined.

(** ** Normalization *)

Section Normalization.
Context {rt : Runtime}.

Lemma parse_and_normalize_dict (raw : str) (fb : StructuredFeedback) :
  parse_and_normalize raw = Return fb ->
  exists d, parse_llm_json raw = Return (VDict d) /\ normalize (VDict d) = Return fb.
Proof.
  unfold parse_and_normalize. intros H.
  destruct (parse_llm_json raw) as [data|e] eqn:P; [|discriminate].
  destruct (parse_llm_json_is_dict raw data P) as [d ->]. eauto.
Qed.

(** The strict interpretation never fails on the parsed object: every
    failure is one of [parse_llm_json]'s. *)
Lemma parse_and_normalize_total (raw : str) (data : value) :
  parse_llm_json raw = Return data ->
  exists fb, parse_and_normalize raw = Return fb.
Proof.
  intros P. unfold parse_and_normalize. rewrite P.
  destruct (parse_llm_json_is_dict raw data P) as [d ->]. simpl. eauto.
Qed.

(** The [actions] of a result are a list, whatever the object held. *)
Lemma normalize_actions_list (d : list (str * value)) (fb : StructuredFeedback) :
  normalize (VDict d) = Return fb -> exists l, actions fb = VList l.
Proof.
  unfold normalize. intros [= <-]. cbn [actions].
  destruct (dict_get d (lit "actions") (VList [])); eauto.
Qed.

(** Whatever text the interpretation succeeds on, the [actions] of the
    result are a list. *)
Lemma parse_and_normalize_actions_list (raw : str) (fb : StructuredFeedback) :
  parse_and_normalize raw = Return fb -> exists l, actions fb = VList l.
Proof.
  intros H. apply parse_and_normalize_dict in H as [d [_ H]].
  now apply normalize_actions_list in H.
Qed.

(** C3. For every parsed mapping [d], normalization succeeds; an absent
    [user_response] becomes ["Thank you for your feedback!"], an absent
    [summary] becomes ["Customer left feedback."], absent [actions] become
    the empty list, and [actions] that are present but not a list become
    the one-element list of their [str()], so a bare string [s] becomes
    [[s]].  The two texts of the specification evaluate accordingly. *)
Theorem normalize_defaults (d : list (str * value)) :
  exists fb,
    normalize (VDict d) = Return fb
    /\ (dict_lookup d (lit "user_response") = None ->
        user_response fb = VStr (lit "Thank you for your feedback!"))
    /\ (dict_lookup d (lit "summary") = None ->
        summary fb = VStr (lit "Customer left feedback."))
    /\ (dict_lookup d (lit "actions") = None -> actions fb = VList [])
    /\ (forall v, dict_lookup d (lit "actions") = Some v ->
                  (forall l, v <> VList l) ->
                  actions fb = VList [VStr (py_str v)])
    /\ (forall s, dict_lookup d (lit "actions") = Some (VStr s) ->
                  actions fb = VList [VStr s])
    /\ parse_and_normalize (lit "{" ++ q "summary" ++ lit ": " ++ q "ok" ++ lit "}")
       = Return {| user_response := VStr (lit "Thank you for your feedback!");
                   summary := VStr (lit "ok");
                   actions := VList [] |}
    /\ (forall fb',
          parse_and_normalize
            (lit "{" ++ q "actions" ++ lit ": " ++ q "retrain staff" ++ lit "}")
          = Return fb' ->
          actions fb' = VList [VStr (lit "retrain staff")]).
Proof.
  eexists. split; [reflexivity|]. cbn [user_response summary actions].
  unfold dict_get. repeat split.
  - now intros ->.
  - now intros ->.
  - now intros ->.
  - intros v -> Hv. destruct v; try reflexivity. now elim (Hv l).
  - now intros s ->.
  - intros fb'. vm_compute. now intros [= <-].
Qed.

(** C2, at the failing input: an object whose [user_response] is a number
    and whose [actions] hold a number comes back with those values as they
    are, not as text. *)
Theorem parse_and_normalize_keeps_mistyped_fields :
  parse_and_normalize
    (lit "{" ++ q "user_response" ++ lit ": 5, "
             ++ q "actions" ++ lit ": [1]}")
  = Return {| user_response := VInt 5;
              summary := VStr (lit "Customer left feedback.");
              actions := VList [VInt 1] |}.
Proof. vm_compute. reflexivity. Qed.

(** C5, as the code has it. ["Sure! {not valid json"] holds no [}], so the
    failure is the "no JSON object" one; with a closing brace after it the
    text has a span, the span is not JSON, and the failure is the parse
    error with the decoder's diagnostic. *)
Theorem parse_and_normalize_unclosed_brace :
  parse_and_normalize (lit "Sure! {not valid json")
  = Raise (LLMErr NoJsonFound)
  /\ parse_and_normalize (lit "Sure! {not valid json}")
     = Raise (LLMErr (MalformedJson ExpectingPropertyName)).
Proof. split; vm_compute; reflexivity. Qed.

End Normalization.

(** C3 on an object that only holds [actions], as a number. *)
Lemma normalize_defaults_witness :
  dict_lookup [(lit "actions", VInt 3)] (lit "summary") = None
  /\ exists fb,
       @normalize example_runtime (VDict [(lit "actions", VInt 3)]) = Return fb
       /\ summary fb = VStr (lit "Customer left feedback.")
       /\ actions fb = VList [VStr (lit "3")].
Proof.
  split; [reflexivity|].
  destruct (@normalize_defaults example_runtime [(lit "actions", VInt 3)])
    as [fb [E [_ [S [_ [A _]]]]]].
  exists fb. split; [exact E|]. split; [apply S; reflexivity|].
  rewrite (A (VInt 3) eq_refl); [reflexivity|discriminate].
Defined.


Lemma parse_and_normalize_actions_list_witness :
  @parse_and_normalize example_runtime
    (lit "{" ++ q "actions" ++ lit ": 7}")
  = Return {| user_response := VStr default_user_response;
              summary := VStr default_summary;
              actions := VList [VStr (lit "7")] |}
  /\ exists l,
       actions {| user_response := VStr default_user_response;
                  summary := VStr default_summary;
                  actions := VList [VStr (lit "7")] |} = VList l.
Proof.
  assert (H : @parse_and_normalize example_runtime
                (lit "{" ++ q "actions" ++ lit ": 7}")
              = Return {| user_response := VStr default_user_response;
                          summary := VStr default_summary;
                          actions := VList [VStr (lit "7")] |})
    by reflexivity.
  split; [exact H|].
  exact (@parse_and_normalize_actions_list example_runtime _ _ H).
Defined.

(** C5 fails as stated: the text raises the "no JSON object" error, which
    is not the parse error. *)
Lemma unclosed_brace_is_not_malformed_json :
  @parse_and_normalize example_runtime (lit "Sure! {not valid json")
  = Raise (LLMErr NoJsonFound)
  /\ forall detail,
       @parse_and_normalize example_runtime (lit "Sure! {not valid json")
       <> Raise (LLMErr (MalformedJson detail)).
Proof. split; [reflexivity|]. intros detail. vm_compute. discriminate. Qed.
(** ** [json.loads] never reaches its recursion bound *)

Lemma skip_ws_length (s : str) : length (skip_ws s) <= length s.
Proof.
  induction s as [|c s IH]; simpl; [lia|].
  destruct (is_ws c); simpl; lia.
Qed.

Lemma skip_ws_cons_length (s : str) (c : char) (s' : str) :
  skip_ws s = c :: s' -> length s' < length s.
Proof.
  intros H. pose proof (skip_ws_length s) as L. rewrite H in L.
  simpl in L. lia.
Qed.

Lemma scanstring_eq (s acc : str) :
  scanstring s acc =
  match s with
  | [] => Invalid UnterminatedString
  | c :: s1 =>
      if (c =? 34)%N then Scanned (rev acc) s1
      else if (c =? 92)%N then
        match s1 with
        | [] => Invalid UnterminatedString
        | e :: s2 =>
            if (e =? 117)%N then
              match s2 with
              | h1 :: h2 :: h3 :: h4 :: ((_ :: _) as s6) =>
                  match decode_uXXXX h1 h2 h3 h4 with
                  | None => Invalid InvalidUEscape
                  | Some uni =>
                      match s6 with
                      | b :: u :: k1 :: k2 :: k3 :: k4 :: ((_ :: _) as s12) =>
                          if is_high_surrogate uni && (b =? 92)%N && (u =? 117)%N then
                            match decode_uXXXX k1 k2 k3 k4 with
                            | None => Invalid InvalidUEscape
                            | Some uni2 =>
                                if is_low_surrogate uni2
                                then scanstring s12 (join_surrogates uni uni2 :: acc)
                                else scanstring s6 (uni :: acc)
                            end
                          else scanstring s6 (uni :: acc)
                      | _ => scanstring s6 (uni :: acc)
                      end
                  end
              | _ => Invalid InvalidUEscape
              end
            else
              match BACKSLASH e with
              | Some ch => scanstring s2 (ch :: acc)
              | None => Invalid InvalidEscape
              end
        end
      else if (c <=? 31)%N then Invalid InvalidControlChar
      else scanstring s1 (c :: acc)
  end.
Proof. destruct s; reflexivity. Qed.

(** A string that is read takes at least its closing quote. *)
Lemma scanstring_length (n : nat) :
  forall s acc k r,
    length s <= n -> scanstring s acc = Scanned k r -> length r < length s.
Proof.
  induction n as [|n IH]; intros s acc k r Hn H.
  - destruct s; [discriminate|simpl in Hn; lia].
  - rewrite scanstring_eq in H.
    repeat (break_match; try discriminate);
      try (injection H as <- <-; simpl; lia);
      apply IH in H; simpl in *; lia.
Qed.

Lemma scanstring_never_exhausted (s acc : str) :
  scanstring s acc <> Exhausted.
Proof.
  remember (length s) as n eqn:Hn. revert s acc Hn.
  induction n as [n IH] using lt_wf_ind. intros s acc Hn.
  rewrite scanstring_eq. intros H.
  repeat (break_match; try discriminate).
  all: revert H; eapply IH; [|reflexivity].
  all: subst; simpl; lia.
Qed.

Lemma span_digits_length (s ds rest : str) :
  span_digits s = (ds, rest) -> length rest <= length s.
Proof.
  revert ds rest. induction s as [|c s IH]; intros ds rest H; simpl in H.
  - injection H as <- <-. simpl. lia.
  - destruct (is_digit c).
    + destruct (span_digits s) as [ds' rest'] eqn:E.
      injection H as <- <-. specialize (IH _ _ eq_refl). simpl. lia.
    + injection H as <- <-. simpl. lia.
Qed.

Ltac inject_pairs :=
  repeat match goal with
    | E : (_, _) = (_, _) |- _ => injection E as <- <-
    | E : Some (_, _) = Some (_, _) |- _ => injection E as <- <-
    | E : span_digits _ = _ |- _ => apply span_digits_length in E
    end.

Lemma match_frac_length (s f rest : str) :
  match_frac s = (f, rest) -> length rest <= length s.
Proof.
  unfold match_frac. intros H.
  repeat (break_match; try discriminate).
  all: inject_pairs; simpl in *; lia.
Qed.

Lemma match_exp_length (s e rest : str) :
  match_exp s = (e, rest) -> length rest <= length s.
Proof.
  unfold match_exp. intros H.
  repeat (break_match; try discriminate).
  all: inject_pairs; simpl in *; lia.
Qed.

Lemma match_integer_length (s ds rest : str) :
  match_integer s = Some (ds, rest) -> length rest <= length s.
Proof.
  unfold match_integer. intros H.
  repeat (break_match; try discriminate).
  all: inject_pairs; simpl in *; lia.
Qed.

Lemma match_number_length (s : str) (v : value) (rest : str) :
  match_number s = Some (v, rest) -> length rest <= length s.
Proof.
  unfold match_number. intros H.
  destruct (match s with
            | [] => (false, s)
            | c :: s' => if (c =? 45)%N then (true, s') else (false, s)
            end) as [neg s0] eqn:E0.
  assert (L0 : length s0 <= length s).
  { destruct s as [|c s']; [|destruct (c =? 45)%N];
      inversion E0; subst; simpl; lia. }
  destruct (match_integer s0) as [[ds s1]|] eqn:E1; [|discriminate].
  apply match_integer_length in E1.
  destruct (match_frac s1) as [frac s2] eqn:E2.
  apply match_frac_length in E2.
  destruct (match_exp s2) as [exp s3] eqn:E3.
  apply match_exp_length in E3.
  destruct frac, exp; injection H as <- <-; lia.
Qed.

Lemma scan_literal_length (s : str) (v : value) (rest : str) :
  scan_literal s = Scanned v rest -> length rest <= length s.
Proof.
  unfold scan_literal. intros H.
  assert (L : forall k, length (skipn k s) <= length s)
    by (intros k; rewrite length_skipn; lia).
  repeat (break_match; try discriminate);
    try (injection H as <- <-;
         first [apply (L 3)|apply (L 4)|apply (L 5)|apply (L 8)|apply (L 9)]).
  injection H as <- <-. subst. eapply match_number_length; eassumption.
Qed.

Lemma scan_literal_never_exhausted (s : str) : scan_literal s <> Exhausted.
Proof.
  unfold scan_literal. intros H. repeat (break_match; try discriminate).
Qed.

(** What is read is never longer than what was there. *)
Lemma scan_lengths (n : nat) :
  (forall s v r, scan_once n s = Scanned v r -> length r <= length s)
  /\ (forall s pairs v r,
        object_loop n s pairs = Scanned v r -> length r <= length s)
  /\ (forall s values v r,
        array_loop n s values = Scanned v r -> length r <= length s).
Proof.
  induction n as [|n [IHs [IHo IHa]]];
    [repeat split; intros; discriminate|].
  repeat split.
  - intros s v r H. rewrite scan_once_S in H.
    repeat (break_match; try discriminate);
      repeat match goal with
        | E : scanstring _ _ = Scanned _ _ |- _ =>
            apply (scanstring_length _ _ _ _ _ (Nat.le_refl _)) in E
        | E : skip_ws _ = _ :: _ |- _ => apply skip_ws_cons_length in E
        | E : object_loop _ _ _ = Scanned _ _ |- _ => apply IHo in E
        | E : array_loop _ _ _ = Scanned _ _ |- _ => apply IHa in E
        | E : scan_literal _ = Scanned _ _ |- _ => apply scan_literal_length in E
        end;
      try (injection H as <- <-); simpl in *; lia.
  - intros s pairs v r H. rewrite object_loop_S in H. cbv zeta in H.
    repeat (break_match; try discriminate);
      repeat match goal with
        | E : scanstring _ _ = Scanned _ _ |- _ =>
            apply (scanstring_length _ _ _ _ _ (Nat.le_refl _)) in E
        | E : skip_ws ?x = _ :: _ |- _ => apply skip_ws_cons_length in E
        | E : scan_once _ (skip_ws ?x) = Scanned _ _ |- _ =>
            apply IHs in E; pose proof (skip_ws_length x)
        | E : object_loop _ _ _ = Scanned _ _ |- _ => apply IHo in E
        end;
      try (injection H as <- <-); simpl in *; lia.
  - intros s values v r H. rewrite array_loop_S in H. cbv zeta in H.
    repeat (break_match; try discriminate);
      repeat match goal with
        | E : skip_ws ?x = _ :: _ |- _ => apply skip_ws_cons_length in E
        | E : scan_once _ _ = Scanned _ _ |- _ => apply IHs in E
        | E : array_loop _ (skip_ws ?x) _ = Scanned _ _ |- _ =>
            apply IHa in E; pose proof (skip_ws_length x)
        end;
      try (injection H as <- <-); simpl in *; lia.
Qed.

Ltac break_goal :=
  match goal with
  | |- context [match ?x with _ => _ end] => destruct x eqn:?
  | |- context [if ?x then _ else _] => destruct x eqn:?
  end.

(** Two units of fuel for each character left, and one or two more, are
    never used up. *)
Lemma scan_never_exhausted (n : nat) :
  (forall s, 2 * length s + 1 <= n -> scan_once n s <> Exhausted)
  /\ (forall s pairs, 2 * length s + 2 <= n -> object_loop n s pairs <> Exhausted)
  /\ (forall s values, 2 * length s + 2 <= n -> array_loop n s values <> Exhausted).
Proof.
  induction n as [|n [IHs [IHo IHa]]]; [repeat split; intros; lia|].
  repeat split.
  - intros s Hn. rewrite scan_once_S.
    destruct s as [|c s1]; [discriminate|].
    destruct (c =? 34)%N.
    { destruct (scanstring s1 []) eqn:E; try discriminate.
      exfalso. now apply scanstring_never_exhausted in E. }
    destruct (c =? 123)%N.
    { destruct (skip_ws s1) as [|d s2] eqn:E; [discriminate|].
      apply skip_ws_cons_length in E.
      destruct (d =? 125)%N; [discriminate|].
      destruct (d =? 34)%N; [|discriminate].
      apply IHo. simpl in Hn. lia. }
    destruct (c =? 91)%N; [|apply scan_literal_never_exhausted].
    destruct (skip_ws s1) as [|d s2] eqn:E; [discriminate|].
    pose proof (skip_ws_length s1) as L. rewrite E in L.
    destruct (d =? 93)%N; [discriminate|].
    apply IHa. simpl in *. lia.
  - intros s pairs Hn. rewrite object_loop_S. cbv zeta.
    destruct (scanstring s []) as [key s1| |] eqn:E1; try discriminate;
      [|exfalso; now apply scanstring_never_exhausted in E1].
    apply (scanstring_length _ _ _ _ _ (Nat.le_refl _)) in E1.
    destruct (skip_ws s1) as [|c s2] eqn:E2; [discriminate|].
    apply skip_ws_cons_length in E2.
    destruct (negb (c =? 58)%N); [discriminate|].
    pose proof (skip_ws_length s2) as L2.
    destruct (scan_once n (skip_ws s2)) as [v s3| |] eqn:E3; try discriminate;
      [|exfalso; revert E3; apply IHs; lia].
    apply (proj1 (scan_lengths n)) in E3.
    destruct (skip_ws s3) as [|d s4] eqn:E4; [discriminate|].
    apply skip_ws_cons_length in E4.
    destruct (d =? 125)%N; [discriminate|].
    destruct (negb (d =? 44)%N); [discriminate|].
    destruct (skip_ws s4) as [|e s5] eqn:E5; [discriminate|].
    apply skip_ws_cons_length in E5.
    destruct (e =? 34)%N; [|discriminate].
    apply IHo. lia.
  - intros s values Hn. rewrite array_loop_S. cbv zeta.
    destruct (scan_once n s) as [v s1| |] eqn:E1; try discriminate;
      [|exfalso; revert E1; apply IHs; lia].
    apply (proj1 (scan_lengths n)) in E1.
    destruct (skip_ws s1) as [|d s2] eqn:E2; [discriminate|].
    apply skip_ws_cons_length in E2.
    destruct (d =? 93)%N; [discriminate|].
    destruct (negb (d =? 44)%N); [discriminate|].
    pose proof (skip_ws_length s2) as L2.
    apply IHa. lia.
Qed.

(** [json.loads] decodes or fails with a diagnostic: the bound built into
    the model is never reached. *)
Lemma json_loads_never_exhausted (s : str) : json_loads s <> DepthExceeded.
Proof.
  unfold json_loads.
  destruct (scan_once (2 * length s + 1) (skip_ws s)) as [v r| |] eqn:E.
  - destruct (skip_ws r); discriminate.
  - discriminate.
  - exfalso. revert E. apply (proj1 (scan_never_exhausted _)).
    pose proof (skip_ws_length s). lia.
Qed.

(** The outcomes of [parse_llm_json]: a [dict], or one of its two errors. *)
Lemma parse_llm_json_outcomes (raw : str) :
  (exists d, parse_llm_json raw = Return (VDict d))
  \/ parse_llm_json raw = Raise (LLMErr NoJsonFound)
  \/ exists detail, parse_llm_json raw = Raise (LLMErr (MalformedJson detail)).
Proof.
  destruct (parse_llm_json raw) as [data|e] eqn:P.
  - left. destruct (parse_llm_json_is_dict raw data P) as [d ->]. eauto.
  - right. unfold parse_llm_json in P.
    destruct ((find raw (lit "{") =? -1)%Z || (rfind raw (lit "}") =? -1)%Z
              || (rfind raw (lit "}") <=? find raw (lit "{"))%Z);
      [left; congruence|].
    destruct (json_loads _) as [v|m|] eqn:L; try discriminate.
    + right. exists m. congruence.
    + now apply json_loads_never_exhausted in L.
Qed.

(** The strict interpretation returns a result or raises one of the two
    parse errors, and nothing else. *)
Lemma parse_and_normalize_outcomes `{Runtime} (raw : str) :
  (exists fb, parse_and_normalize raw = Return fb)
  \/ parse_and_normalize raw = Raise (LLMErr NoJsonFound)
  \/ exists detail,
       parse_and_normalize raw = Raise (LLMErr (MalformedJson detail)).
Proof.
  unfold parse_and_normalize.
  destruct (parse_llm_json_outcomes raw) as [[d ->]|[->|[m ->]]].
  - left. simpl. eauto.
  - right. now left.
  - right. right. now exists m.
Qed.
(** ** [json.loads] reads back well-formed text *)

Lemma skip_ws_blank (w s : str) :
  blank w = true -> skip_ws (w ++ s) = skip_ws s.
Proof.
  induction w as [|c w IH]; intros H; [reflexivity|].
  simpl in H. apply andb_prop in H as [Hc Hw].
  simpl. rewrite Hc. now apply IH.
Qed.

Lemma skip_ws_nonblank (c : char) (s : str) :
  is_ws c = false -> skip_ws (c :: s) = c :: s.
Proof. intros H. simpl. now rewrite H. Qed.

(** *** Strings *)

Lemma scanstring_item (i : item) (c : char) (s acc : str) :
  item_char i = Some c ->
  s <> [] ->
  scanstring (item_text i ++ s) acc = scanstring s (c :: acc).
Proof.
  intros H Hs. destruct s as [|x s]; [congruence|]. clear Hs.
  destruct i as [r|e|h1 h2 h3 h4|h1 h2 h3 h4 k1 k2 k3 k4]; simpl in H.
  - destruct ((r <=? 31) || (r =? 34) || (r =? 92))%N eqn:E; [discriminate|].
    injection H as <-.
    apply orb_false_elim in E as [E E3]. apply orb_false_elim in E as [E1 E2].
    simpl. now rewrite E2, E3, E1.
  - assert (Hu : (e =? 117)%N = false).
    { destruct (N.eqb_spec e 117) as [->|]; [discriminate|reflexivity]. }
    simpl. now rewrite Hu, H.
  - destruct (decode_uXXXX h1 h2 h3 h4) as [u|] eqn:D; [|discriminate].
    destruct (is_high_surrogate u) eqn:Hh; [discriminate|].
    injection H as <-.
    cbn [item_text app scanstring N.eqb Pos.eqb]. rewrite D, Hh.
    cbn [andb]. destruct s as [|? [|? [|? [|? [|? [|? ?]]]]]]; reflexivity.
  - destruct (decode_uXXXX h1 h2 h3 h4) as [hi|] eqn:D1; [|discriminate].
    destruct (decode_uXXXX k1 k2 k3 k4) as [lo|] eqn:D2; [|discriminate].
    destruct (is_high_surrogate hi && is_low_surrogate lo) eqn:Hs;
      [|discriminate].
    injection H as <-. apply andb_prop in Hs as [Hh Hl].
    cbn [item_text app scanstring N.eqb Pos.eqb]. rewrite D1, Hh.
    cbn [andb N.eqb Pos.eqb]. now rewrite D2, Hl.
Qed.

Lemma all_some_cons {A : Type} (o : option A) (l : list (option A)) (xs : list A) :
  all_some (o :: l) = Some xs ->
  exists a ys, o = Some a /\ all_some l = Some ys /\ xs = a :: ys.
Proof.
  destruct o as [a|]; simpl; [|discriminate].
  destruct (all_some l) as [ys|]; simpl; [|discriminate].
  intros [= <-]. eauto.
Qed.

(** The body of a well-formed literal, up to its closing quote, is read
    as the characters it denotes. *)
Lemma scanstring_items (items : list item) :
  forall chars acc rest,
    string_chars items = Some chars ->
    scanstring (flat_map item_text items ++ dq ++ rest) acc
    = Scanned (rev acc ++ chars) rest.
Proof.
  induction items as [|i items IH]; intros chars acc rest H.
  - injection H as <-. simpl. now rewrite app_nil_r.
  - apply all_some_cons in H as [c [cs [Hc [Hcs ->]]]].
    simpl flat_map. rewrite <- app_assoc.
    rewrite (scanstring_item i c) by
      (try assumption; destruct (flat_map item_text items); discriminate).
    rewrite (IH cs) by assumption. simpl. now rewrite <- app_assoc.
Qed.

Lemma scan_once_string (n : nat) (items : list item) (chars rest : str) :
  string_chars items = Some chars ->
  scan_once (S n) (string_text items ++ rest) = Scanned (VStr chars) rest.
Proof.
  intros H. unfold string_text. rewrite <- !app_assoc.
  rewrite scan_once_S. change (dq ++ ?x) with (34%N :: x).
  cbv iota. change (34 =? 34)%N with true. cbv iota.
  now rewrite (scanstring_items items chars [] rest H).
Qed.

(** *** Arrays of strings *)

Lemma join_cons2 (sep p p' : str) (ps : list str) :
  join sep (p :: p' :: ps) = p ++ sep ++ join sep (p' :: ps).
Proof. reflexivity. Qed.

Lemma elem_str_inv (e : elem) (s : str) :
  elem_str e = Some s ->
  blank (e_before e) = true /\ blank (e_after e) = true
  /\ string_chars (e_items e) = Some s.
Proof.
  unfold elem_str.
  destruct (blank (e_before e)), (blank (e_after e)); simpl;
    try discriminate. auto.
Qed.

Lemma skip_ws_string_text (items : list item) (s : str) :
  skip_ws (string_text items ++ s) = string_text items ++ s.
Proof. reflexivity. Qed.

(** The text of a non-empty sequence of elements starts, after its
    whitespace, with the quote of the first element. *)
Lemma skip_ws_elems (e : elem) (es : list elem) (strs : list str) (s : str) :
  all_some (map elem_str (e :: es)) = Some strs ->
  exists s', skip_ws (join comma (map elem_text (e :: es)) ++ s) = 34%N :: s'.
Proof.
  intros H. apply all_some_cons in H as [x [xs [He _]]].
  apply elem_str_inv in He as [Hb _].
  destruct es as [|e' es]; simpl map.
  - unfold join, elem_text. rewrite <- !app_assoc.
    rewrite skip_ws_blank by assumption. unfold string_text.
    rewrite <- !app_assoc. simpl. eauto.
  - rewrite join_cons2. unfold elem_text at 1. rewrite <- !app_assoc.
    rewrite skip_ws_blank by assumption. unfold string_text.
    rewrite <- !app_assoc. simpl. eauto.
Qed.

Lemma array_loop_elems (elems : list elem) :
  forall strs values rest fuel,
    elems <> [] ->
    all_some (map elem_str elems) = Some strs ->
    length elems < fuel ->
    array_loop fuel
      (skip_ws (join comma (map elem_text elems) ++ lit "]" ++ rest)) values
    = Scanned (VList (values ++ map VStr strs)) rest.
Proof.
  induction elems as [|e es IH]; intros strs values rest fuel Hne H Hf;
    [congruence|].
  apply all_some_cons in H as [x [xs [He [Hes ->]]]].
  apply elem_str_inv in He as [Hb [Ha Hx]].
  destruct fuel as [|[|n]]; [simpl in Hf; lia|simpl in Hf; lia|].
  assert (Step : forall tail,
             skip_ws (elem_text e ++ tail)
             = string_text (e_items e) ++ e_after e ++ tail).
  { intros tail. unfold elem_text. rewrite <- !app_assoc.
    now rewrite skip_ws_blank by assumption. }
  destruct es as [|e' es].
  - simpl map. simpl join. rewrite Step.
    rewrite array_loop_S. rewrite (scan_once_string n _ x) by assumption.
    cbv zeta. rewrite skip_ws_blank by assumption.
    injection Hes as <-. reflexivity.
  - simpl map. rewrite join_cons2. rewrite <- !app_assoc. rewrite Step.
    rewrite array_loop_S. rewrite (scan_once_string n _ x) by assumption.
    cbv zeta. rewrite skip_ws_blank by assumption.
    change (skip_ws (comma ++ ?t)) with (44%N :: t).
    cbv iota. change (44 =? 93)%N with false. change (44 =? 44)%N with true.
    cbv iota. cbn [negb].
    change (elem_text e' :: map elem_text es) with (map elem_text (e' :: es)).
    rewrite (IH xs) by (try discriminate; try assumption; simpl in *; lia).
    rewrite <- app_assoc. reflexivity.
Qed.

(** *** Fields *)

Lemma skip_ws_field_text (f : field) (s : str) :
  skip_ws (field_text f ++ s) = field_text f ++ s.
Proof. destruct f; reflexivity. Qed.

Lemma scan_once_field (f : field) (v : value) (rest : str) (fuel : nat) :
  field_value f = Some v ->
  field_fuel f <= fuel ->
  scan_once fuel (field_text f ++ rest) = Scanned v rest.
Proof.
  destruct f as [items|ws elems]; simpl field_value; simpl field_fuel;
    intros H Hf.
  - destruct fuel as [|n]; [lia|].
    destruct (string_chars items) as [chars|] eqn:E; [|discriminate].
    injection H as <-. now apply scan_once_string.
  - destruct (blank ws) eqn:Hw; [|discriminate].
    destruct (all_some (map elem_str elems)) as [strs|] eqn:E;
      [|discriminate].
    injection H as <-.
    destruct fuel as [|n]; [lia|].
    unfold field_text. rewrite <- !app_assoc.
    change (lit "[" ++ ?x) with (91%N :: x).
    rewrite scan_once_S. cbv iota.
    change (91 =? 34)%N with false. change (91 =? 123)%N with false.
    change (91 =? 91)%N with true. cbv iota.
    rewrite skip_ws_blank by assumption.
    destruct elems as [|e es].
    + injection E as <-. reflexivity.
    + destruct (skip_ws_elems e es strs (lit "]" ++ rest) E) as [s' Hs'].
      pose proof (array_loop_elems (e :: es) strs [] rest n) as A.
      rewrite Hs' in *. change (34 =? 93)%N with false. cbv iota.
      apply A; [discriminate|assumption|simpl in *; lia].
Qed.

(** *** Objects *)

Lemma member_pair_inv (m : member) (k : str) (v : value) :
  member_pair m = Some (k, v) ->
  blank (m_before m) = true /\ blank (m_after_key m) = true
  /\ blank (m_before_value m) = true /\ blank (m_after m) = true
  /\ string_chars (m_key m) = Some k /\ field_value (m_value m) = Some v.
Proof.
  unfold member_pair.
  destruct (blank (m_before m)), (blank (m_after_key m)),
    (blank (m_before_value m)), (blank (m_after m)); simpl;
    try discriminate.
  destruct (string_chars (m_key m)); [|discriminate].
  destruct (field_value (m_value m)); [|discriminate].
  intros [= <- <-]. auto 6.
Qed.

Lemma skip_ws_member (m : member) (k : str) (v : value) (s : str) :
  member_pair m = Some (k, v) ->
  skip_ws (member_text m ++ s) = 34%N :: member_tail m ++ s.
Proof.
  intros H. apply member_pair_inv in H as [Hb _].
  unfold member_text, member_tail, string_text. rewrite <- !app_assoc.
  now rewrite skip_ws_blank by assumption.
Qed.

(** One turn of [object_loop]: the key, the colon and the value of [m]
    are read, and the loop stands before what follows the member. *)
Lemma object_loop_member (m : member) (k : str) (v : value)
  (n : nat) (tail : str) (pairs : list (str * value)) :
  member_pair m = Some (k, v) ->
  field_fuel (m_value m) <= n ->
  object_loop (S n) (member_tail m ++ tail) pairs
  = match skip_ws tail with
    | [] => Invalid ExpectingComma
    | d :: s4 =>
        if (d =? 125)%N then Scanned (VDict (dict_of_pairs (pairs ++ [(k, v)]))) s4
        else if negb (d =? 44)%N then Invalid ExpectingComma
        else
          match skip_ws s4 with
          | [] => Invalid ExpectingPropertyName
          | e :: s5 =>
              if (e =? 34)%N then object_loop n s5 (pairs ++ [(k, v)])
              else Invalid ExpectingPropertyName
          end
    end.
Proof.
  intros H Hf.
  apply member_pair_inv in H as [_ [Hk [Hv [Ha [Hkey Hval]]]]].
  rewrite object_loop_S. unfold member_tail. rewrite <- !app_assoc.
  rewrite (scanstring_items _ k [] _ Hkey). cbv beta iota.
  change (rev [] ++ k) with k.
  rewrite skip_ws_blank by assumption.
  change (skip_ws (lit ":" ++ ?t)) with (58%N :: t). cbv iota.
  change (58 =? 58)%N with true. cbn [negb]. cbv iota.
  rewrite skip_ws_blank by assumption.
  rewrite skip_ws_field_text.
  rewrite (scan_once_field _ v _ n Hval Hf). cbv zeta.
  now rewrite skip_ws_blank by assumption.
Qed.

Lemma object_loop_members (ms : list member) :
  forall m pairs acc rest fuel,
    object_pairs (m :: ms) = Some pairs ->
    object_fuel (m :: ms) <= fuel ->
    object_loop fuel
      (member_tail m ++ match ms with
                        | [] => []
                        | _ :: _ => comma ++ join comma (map member_text ms)
                        end ++ [rbrace] ++ rest) acc
    = Scanned (VDict (dict_of_pairs (acc ++ pairs))) rest.
Proof.
  induction ms as [|m' ms IH]; intros m pairs acc rest fuel H Hf.
  - apply all_some_cons in H as [[k v] [ps [Hm [Hps ->]]]].
    injection Hps as <-.
    destruct fuel as [|n]; [simpl in Hf; lia|].
    rewrite (object_loop_member m k v) by (try assumption; simpl in Hf; lia).
    reflexivity.
  - apply all_some_cons in H as [[k v] [ps [Hm [Hps ->]]]].
    destruct fuel as [|n]; [simpl in Hf; lia|].
    rewrite (object_loop_member m k v) by (try assumption; simpl in Hf; lia).
    rewrite <- app_assoc.
    change (skip_ws (comma ++ ?t)) with (44%N :: t). cbv iota.
    change (44 =? 125)%N with false. change (44 =? 44)%N with true.
    cbn [negb]. cbv iota.
    pose proof Hps as Hps'. change (map member_pair (m' :: ms))
      with (member_pair m' :: map member_pair ms) in Hps'.
    apply all_some_cons in Hps' as [[k' v'] [ps' [Hm' _]]].
    assert (E : join comma (map member_text (m' :: ms)) ++ [rbrace] ++ rest
                = member_text m'
                  ++ match ms with
                     | [] => []
                     | _ :: _ => comma ++ join comma (map member_text ms)
                     end ++ [rbrace] ++ rest).
    { destruct ms; simpl map; [reflexivity|].
      rewrite join_cons2. now rewrite <- !app_assoc. }
    rewrite E, (skip_ws_member m' k' v' _ Hm'). cbv iota.
    change (34 =? 34)%N with true. cbv iota.
    rewrite (IH m' ps) by (try assumption; simpl in *; lia).
    now rewrite <- app_assoc.
Qed.

Lemma length_join_ge (sep : str) (ps : list str) (f : nat) :
  f <= fold_right (fun p n => length p + n) 0 ps ->
  f <= length (join sep ps).
Proof.
  revert f. induction ps as [|p ps IH]; intros f H; [assumption|].
  destruct ps as [|p' ps]; [simpl in *; lia|].
  rewrite join_cons2, !length_app. simpl fold_right in H.
  specialize (IH (f - length p)). simpl fold_right in IH. lia.
Qed.

Lemma field_fuel_le (f : field) : field_fuel f <= length (field_text f).
Proof.
  destruct f as [items|ws elems]; simpl.
  - unfold string_text. rewrite !length_app. simpl. lia.
  - rewrite !length_app. simpl.
    assert (length elems <= length (join comma (map elem_text elems))).
    { apply length_join_ge. induction elems as [|e es IH]; simpl; [lia|].
      unfold elem_text at 1, string_text. rewrite !length_app. simpl. lia. }
    lia.
Qed.

Lemma object_fuel_le (ms : list member) :
  object_fuel ms <= length (join comma (map member_text ms)).
Proof.
  apply length_join_ge. induction ms as [|m ms IH]; simpl; [lia|].
  pose proof (field_fuel_le (m_value m)).
  unfold member_text at 1, string_text. rewrite !length_app. simpl. lia.
Qed.

(** [json.loads] on the text of a well-formed object gives the [dict] of
    its pairs. *)
Lemma json_loads_object (ms : list member) (pairs : list (str * value)) :
  ms <> [] ->
  object_pairs ms = Some pairs ->
  json_loads (object_text ms) = Loaded (VDict (dict_of_pairs pairs)).
Proof.
  intros Hne H. destruct ms as [|m ms]; [congruence|]. clear Hne.
  unfold json_loads, object_text.
  change (skip_ws ([lbrace] ++ ?t)) with (lbrace :: t).
  replace (2 * length ([lbrace] ++ join comma (map member_text (m :: ms)) ++ [rbrace]) + 1)
    with (S (2 * length ([lbrace] ++ join comma (map member_text (m :: ms)) ++ [rbrace])))
    by lia.
  remember (2 * length ([lbrace] ++ join comma (map member_text (m :: ms)) ++ [rbrace]))
    as n eqn:Hn.
  assert (Hf : object_fuel (m :: ms) <= n).
  { pose proof (object_fuel_le (m :: ms)). rewrite !length_app in Hn. lia. }
  clear Hn.
  rewrite scan_once_S. cbv iota.
  change (lbrace =? 34)%N with false. change (lbrace =? 123)%N with true.
  cbv iota.
  pose proof H as H'. apply all_some_cons in H' as [[k v] [ps [Hm _]]].
  assert (E : join comma (map member_text (m :: ms)) ++ [rbrace]
              = member_text m
                ++ match ms with
                   | [] => []
                   | _ :: _ => comma ++ join comma (map member_text ms)
                   end ++ [rbrace] ++ []).
  { destruct ms; simpl map; [reflexivity|].
    rewrite join_cons2. now rewrite <- !app_assoc. }
  rewrite E, (skip_ws_member m k v _ Hm). cbv iota.
  change (34 =? 125)%N with false. change (34 =? 34)%N with true. cbv iota.
  now rewrite (object_loop_members ms m pairs [] [] n H Hf).
Qed.

(** *** The [dict] of a list of pairs *)

Lemma dict_lookup_set_same (d : list (str * value)) (k : str) (v : value) :
  dict_lookup (dict_set d k v) k = Some v.
Proof.
  induction d as [|[k' v'] d IH]; simpl.
  - now rewrite str_eqb_refl.
  - destruct (str_eqb k' k) eqn:E; simpl; rewrite E; [reflexivity|exact IH].
Qed.

Lemma dict_lookup_set_other (d : list (str * value)) (k k' : str) (v : value) :
  k <> k' -> dict_lookup (dict_set d k v) k' = dict_lookup d k'.
Proof.
  intros Hne. induction d as [|[k0 v0] d IH]; simpl.
  - now rewrite str_eqb_neq.
  - destruct (str_eqb k0 k) eqn:E; simpl.
    + apply str_eqb_eq in E. subst k0. now rewrite str_eqb_neq.
    + destruct (str_eqb k0 k'); [reflexivity|exact IH].
Qed.

Lemma dict_lookup_fold_other (ps : list (str * value)) :
  forall acc k,
    ~ In k (map fst ps) ->
    dict_lookup (fold_left (fun d kv => dict_set d (fst kv) (snd kv)) ps acc) k
    = dict_lookup acc k.
Proof.
  induction ps as [|[k0 v0] ps IH]; intros acc k H; [reflexivity|].
  simpl. rewrite IH by (intros K; apply H; now right).
  apply dict_lookup_set_other. intros ->. apply H. now left.
Qed.

(** With pairwise different keys, every pair is found in the [dict]. *)
Lemma dict_lookup_of_pairs (ps : list (str * value)) (k : str) (v : value) :
  NoDup (map fst ps) -> In (k, v) ps ->
  dict_lookup (dict_of_pairs ps) k = Some v.
Proof.
  unfold dict_of_pairs. generalize (@nil (str * value)) as acc.
  induction ps as [|[k0 v0] ps IH]; intros acc Hnd Hin; [destruct Hin|].
  simpl in Hnd. inversion Hnd as [|? ? Hk0 Hnd']; subst.
  destruct Hin as [[= -> ->]|Hin]; simpl.
  - rewrite dict_lookup_fold_other by assumption.
    apply dict_lookup_set_same.
  - now apply IH.
Qed.

(** ** Recovery of a well-formed object *)

Section Recovery.
Context {rt : Runtime}.

(** C1, as the code has it. A well-formed JSON object with the three keys
    [user_response] (a string), [summary] (a string) and [actions] (an
    array of strings), written with any whitespace, any key order and any
    escapes, and standing between a text before it that holds no [{] and a
    text after it that holds no [}], is recovered: the result holds exactly
    the three values the object denotes. *)
Theorem parse_and_normalize_recovers
  (pre post : str) (ms : list member) (pairs : list (str * value))
  (ur sm : str) (acts : list str) :
  ~ In lbrace pre -> ~ In rbrace post ->
  object_pairs ms = Some pairs ->
  Permutation pairs [ (lit "user_response", VStr ur);
                      (lit "summary", VStr sm);
                      (lit "actions", VList (map VStr acts)) ] ->
  parse_and_normalize (pre ++ object_text ms ++ post)
  = Return {| user_response := VStr ur;
              summary := VStr sm;
              actions := VList (map VStr acts) |}.
Proof.
  intros Hpre Hpost Hpairs Hperm.
  assert (Hne : ms <> []).
  { intros ->. injection Hpairs as <-.
    apply Permutation_length in Hperm. discriminate. }
  assert (Hnd : NoDup (map fst pairs)).
  { apply (Permutation_NoDup (l := map fst
             [ (lit "user_response", VStr ur); (lit "summary", VStr sm);
               (lit "actions", VList (map VStr acts)) ])).
    - apply Permutation_map. now apply Permutation_sym.
    - simpl. repeat constructor; simpl; intuition discriminate. }
  assert (Hin : forall k v,
             In (k, v) [ (lit "user_response", VStr ur); (lit "summary", VStr sm);
                         (lit "actions", VList (map VStr acts)) ] ->
             dict_lookup (dict_of_pairs pairs) k = Some v).
  { intros k v H. apply dict_lookup_of_pairs; [assumption|].
    eapply Permutation_in; [apply Permutation_sym; eassumption|assumption]. }
  unfold parse_and_normalize, object_text.
  replace (pre ++ ([lbrace] ++ join comma (map member_text ms) ++ [rbrace]) ++ post)
    with (pre ++ [lbrace] ++ join comma (map member_text ms) ++ [rbrace] ++ post)
    by (now rewrite <- !app_assoc).
  destruct (parse_llm_json_span pre (join comma (map member_text ms)) post
              Hpre Hpost) as [_ [_ ->]].
  unfold parse_span. fold (object_text ms).
  rewrite (json_loads_object ms pairs Hne Hpairs).
  unfold normalize, dict_get.
  rewrite (Hin (lit "user_response") (VStr ur)) by (simpl; auto).
  rewrite (Hin (lit "summary") (VStr sm)) by (simpl; auto).
  rewrite (Hin (lit "actions") (VList (map VStr acts))) by (simpl; auto).
  reflexivity.
Qed.

End Recovery.

(** C1 at an example: the object in another key order, between two
    sentences without braces. *)
Lemma parse_and_normalize_recovers_witness :
  ~ In lbrace (lit "Sure! Here you go: ")
  /\ ~ In rbrace (lit " Hope that helps.")
  /\ @parse_and_normalize example_runtime
       (lit "Sure! Here you go: " ++ object_text example_members
        ++ lit " Hope that helps.")
     = Return example_feedback.
Proof.
  assert (H1 : ~ In lbrace (lit "Sure! Here you go: "))
    by (apply find_char_none; reflexivity).
  assert (H2 : ~ In rbrace (lit " Hope that helps."))
    by (apply find_char_none; reflexivity).
  split; [exact H1|]. split; [exact H2|].
  apply (@parse_and_normalize_recovers example_runtime
           (lit "Sure! Here you go: ") (lit " Hope that helps.")
           example_members
           [ (lit "summary", VStr (lit "Happy customer"));
             (lit "user_response", VStr (lit "Thanks!"));
             (lit "actions", VList (map VStr [lit "Keep it up"; lit "Say thanks"])) ]
           (lit "Thanks!") (lit "Happy customer")
           [lit "Keep it up"; lit "Say thanks"] H1 H2 eq_refl).
  apply perm_swap.
Defined.

(** C1 fails as stated: prose after the object that holds a [}] extends
    the candidate span past the object, and prose before it that holds a
    [{] starts the span too early; in both cases the well-formed object is
    not recovered. *)
Lemma braces_in_prose_break_recovery :
  object_pairs example_members
  = Some [ (lit "summary", VStr (lit "Happy customer"));
           (lit "user_response", VStr (lit "Thanks!"));
           (lit "actions", VList [VStr (lit "Keep it up"); VStr (lit "Say thanks")]) ]
  /\ @parse_and_normalize example_runtime
       (lit "Result: " ++ object_text example_members ++ lit " (a set: {})")
     = Raise (LLMErr (MalformedJson ExtraData))
  /\ @parse_and_normalize example_runtime
       (lit "As {json}: " ++ object_text example_members ++ lit " Done.")
     = Raise (LLMErr (MalformedJson ExpectingPropertyName)).
Proof. repeat split; vm_compute; reflexivity. Qed.
(** ** The model call *)

Section ModelCall.
Context {rt : Runtime}.

(** Without a credential the call fails before anything is sent. *)
Lemma call_llm_without_token
  (post : request -> result response) (prompt : str) (max_new_tokens : Z) :
  call_llm None post prompt max_new_tokens
  = (Raise (LLMErr AuthenticationMissing), [])
  /\ call_llm (Some []) post prompt max_new_tokens
     = (Raise (LLMErr AuthenticationMissing), []).
Proof. split; reflexivity. Qed.

(** A response whose status is not 200 fails with the status and the body. *)
Lemma call_llm_service_error
  (c : char) (token : str) (resp : response) (prompt : str) (max_new_tokens : Z) :
  status_code resp <> 200%Z ->
  fst (call_llm (Some (c :: token)) (fun _ => Return resp) prompt max_new_tokens)
  = Raise (LLMErr (ServiceError (status_code resp) (text resp))).
Proof.
  intros H. unfold call_llm.
  destruct (Z.eqb_spec (status_code resp) 200); [contradiction|reflexivity].
Qed.

(** The two accepted shapes, and the fallback for a body that is neither
    and whose first item, if it is a list, is an object. *)
Lemma generated_text_of_shapes (d : list (str * value)) (x : value) :
  (dict_lookup d generated_text = Some x ->
   forall others, generated_text_of (VList (VDict d :: others)) = Return x)
  /\ (dict_lookup d generated_text = Some x ->
      generated_text_of (VDict d) = Return x)
  /\ (dict_lookup d generated_text = None ->
      generated_text_of (VDict d) = Return (VStr (py_str (VDict d))))
  /\ (dict_lookup d generated_text = None ->
      forall others,
        generated_text_of (VList (VDict d :: others))
        = Return (VStr (py_str (VList (VDict d :: others)))))
  /\ generated_text_of (VList []) = Return (VStr (py_str (VList []))).
Proof.
  unfold generated_text_of, py_in, py_getitem.
  repeat split; try (intros ->; reflexivity).
Qed.

(** C9, at the failing input: a 200 response whose body is the JSON list
    [[1]] makes [call_llm] raise [TypeError] at the membership test on the
    list's first item, where the string rendering ["[1]"] of the body was
    to be returned. *)
Theorem call_llm_raises_on_list_of_scalars
  (c : char) (token prompt : str) (max_new_tokens : Z) :
  fst (call_llm (Some (c :: token))
         (fun _ => Return {| status_code := 200; text := lit "[1]" |})
         prompt max_new_tokens)
  = Raise TypeError
  /\ json_loads (lit "[1]") = Loaded (VList [VInt 1])
  /\ py_str (VList [VInt 1]) = lit "[1]".
Proof. repeat split. Qed.

(** [generate_feedback] interprets what [call_llm] returned, and fails as
    [call_llm] fails. *)
Lemma generate_feedback_interprets
  (HF_API_TOKEN : option str) (post : request -> result response)
  (rating : Z) (review raw_output : str) :
  fst (call_llm HF_API_TOKEN post (build_prompt rating review) 256)
  = Return (VStr raw_output) ->
  generate_feedback HF_API_TOKEN post rating review
  = parse_and_normalize raw_output.
Proof. unfold generate_feedback. now intros ->. Qed.

Lemma generate_feedback_without_token
  (post : request -> result response) (rating : Z) (review : str) :
  generate_feedback None post rating review
  = Raise (LLMErr AuthenticationMissing).
Proof. reflexivity. Qed.

End ModelCall.

Lemma call_llm_service_error_witness :
  status_code {| status_code := 503; text := lit "busy" |} <> 200%Z
  /\ fst (@call_llm example_runtime (Some (lit "hf_token"))
            (fun _ => Return {| status_code := 503; text := lit "busy" |})
            (lit "prompt") 256)
     = Raise (LLMErr (ServiceError 503 (lit "busy"))).
Proof.
  assert (H : status_code {| status_code := 503; text := lit "busy" |} <> 200%Z)
    by discriminate.
  split; [exact H|].
  exact (@call_llm_service_error example_runtime 104%N (lit "f_token")
           {| status_code := 503; text := lit "busy" |} (lit "prompt") 256 H).
Defined.
(** ** More on strings: what [strip] and [split] leave *)

Lemma lstrip_split (s : str) :
  exists w, s = w ++ lstrip s /\ forallb isspace w = true.
Proof.
  induction s as [|c s [w [E W]]]; [now exists []|].
  simpl. destruct (isspace c) eqn:C.
  - exists (c :: w). simpl. rewrite C, W. split; [now f_equal|reflexivity].
  - now exists [].
Qed.

Lemma lstrip_head (s : str) (c : char) (t : str) :
  lstrip s = c :: t -> isspace c = false.
Proof.
  induction s as [|d s IH]; simpl; [discriminate|].
  destruct (isspace d) eqn:D; [exact IH|]. now intros [= <- _].
Qed.

Lemma rstrip_split (s : str) :
  exists w, s = rstrip s ++ w /\ forallb isspace w = true.
Proof.
  destruct (lstrip_split (rev s)) as [w [E W]]. exists (rev w). split.
  - unfold rstrip. rewrite <- rev_app_distr, <- E. now rewrite rev_involutive.
  - rewrite forallb_forall in *. intros x Hx. apply W. now apply in_rev.
Qed.

Lemma rstrip_last (s t : str) (c : char) :
  rstrip s = t ++ [c] -> isspace c = false.
Proof.
  unfold rstrip. intros H. apply (f_equal (@rev _)) in H.
  rewrite rev_involutive, rev_app_distr in H. simpl in H.
  now apply lstrip_head in H.
Qed.

(** [strip] gives a trimmed text. *)
Lemma strip_trimmed (s : str) : trimmed (strip s).
Proof.
  unfold strip. split.
  - intros c t H. destruct (rstrip_split (lstrip s)) as [w [E _]].
    rewrite H in E. simpl in E. now apply lstrip_head in E.
  - intros t c H. now apply rstrip_last in H.
Qed.

(** [strip] only removes white space at the two ends. *)
Lemma strip_split (s : str) :
  exists w1 w2,
    s = w1 ++ strip s ++ w2
    /\ forallb isspace w1 = true /\ forallb isspace w2 = true.
Proof.
  destruct (lstrip_split s) as [w1 [E1 W1]].
  destruct (rstrip_split (lstrip s)) as [w2 [E2 W2]].
  exists w1, w2. unfold strip. now rewrite <- E2.
Qed.

Lemma contains_strip (s m : str) : contains (strip s) m -> contains s m.
Proof.
  intros [a [b E]]. destruct (strip_split s) as [w1 [w2 [Es _]]].
  exists (w1 ++ a), (b ++ w2). rewrite Es at 1. rewrite E.
  now rewrite <- !app_assoc.
Qed.

Lemma strip_all_space (s : str) : forallb isspace s = true -> strip s = [].
Proof.
  intros H. unfold strip.
  assert (L : lstrip s = []).
  { induction s as [|c s IH]; [reflexivity|]. simpl in *.
    apply andb_true_iff in H as [-> H]. now apply IH. }
  now rewrite L.
Qed.

Lemma trimmed_fixed (s : str) : strip s = s -> trimmed s.
Proof. intros <-. apply strip_trimmed. Qed.

(** The index [find] returns is that of the first occurrence. *)
Lemma find_nat_first (s sub : str) (i : nat) :
  find_nat s sub = Some i -> forall a b, s = a ++ sub ++ b -> i <= length a.
Proof.
  revert i. induction s as [|c s IH]; intros i F a b E.
  - simpl in F. destruct (startswith [] sub); [|discriminate].
    injection F as <-. lia.
  - unfold find_nat in F; fold find_nat in F.
    destruct (startswith (c :: s) sub) eqn:S; [injection F as <-; lia|].
    destruct (find_nat s sub) as [j|] eqn:Fs; [|discriminate].
    injection F as <-. destruct a as [|d a].
    + simpl in E. rewrite E, startswith_app in S. discriminate.
    + simpl in E. injection E as _ E. simpl.
      specialize (IH j eq_refl a b E). lia.
Qed.

(** No occurrence lies before the first one. *)
Lemma firstn_find_free (s sub : str) (i : nat) :
  sub <> [] -> find_nat s sub = Some i -> ~ contains (firstn i s) sub.
Proof.
  intros Hne F [a [b E]].
  assert (Es : s = a ++ sub ++ (b ++ skipn i s)).
  { rewrite <- (firstn_skipn i s) at 1. rewrite E. now rewrite <- !app_assoc. }
  pose proof (find_nat_first _ _ _ F _ _ Es) as Hi.
  pose proof (firstn_le_length i s) as Hl.
  rewrite E, !length_app in Hl.
  assert (0 < length sub) by (destruct sub; [congruence|simpl; lia]).
  lia.
Qed.

(** No piece of a [split] holds the separator. *)
Lemma split_n_pieces (sep : str) :
  sep <> [] ->
  forall n s p, length s <= n -> In p (split_n n s sep) -> ~ contains p sep.
Proof.
  intros Hne. induction n as [|n IH]; intros s p Hn Hp.
  - destruct s; [|simpl in Hn; lia]. destruct Hp as [<-|[]].
    intros [a [b E]]. destruct a; [|discriminate]. destruct sep; [|discriminate].
    congruence.
  - simpl in Hp. destruct (find_nat s sep) as [i|] eqn:F.
    + destruct Hp as [<-|Hp]; [now apply firstn_find_free|].
      apply (IH (skipn (i + length sep) s)); [|assumption].
      assert (0 < length sep) by (destruct sep; [congruence|simpl; lia]).
      rewrite length_skipn. lia.
    + destruct Hp as [<-|[]]. now apply find_nat_None.
Qed.

Lemma split_pieces (s sep p : str) :
  sep <> [] -> In p (split s sep) -> ~ contains p sep.
Proof. intros Hne. now apply split_n_pieces. Qed.

Lemma contains_join (sep x : str) (parts : list str) :
  In x parts -> contains (join sep parts) x.
Proof.
  induction parts as [|p ps IH]; intros H; [destruct H|].
  destruct ps as [|p' ps].
  - destruct H as [->|[]]. exists [], []. simpl. now rewrite app_nil_r.
  - destruct H as [->|H].
    + exists [], (sep ++ join sep (p' :: ps)). reflexivity.
    + destruct (IH H) as [a [b E]].
      exists (p ++ sep ++ a), b.
      change (join sep (p :: p' :: ps)) with (p ++ sep ++ join sep (p' :: ps)).
      rewrite E. now rewrite <- !app_assoc.
Qed.

Lemma slice_prefix (s : str) (n : nat) :
  slice s 0 (Z.of_nat n) = firstn n s.
Proof.
  unfold slice, clamp.
  destruct (Z.ltb_spec 0 0); [lia|].
  destruct (Z.ltb_spec (Z.of_nat n) 0); [lia|].
  rewrite (Z.min_l 0) by lia. change (Z.to_nat 0) with 0. rewrite Nat.sub_0_r.
  simpl skipn.
  destruct (Nat.le_gt_cases n (length s)).
  - rewrite Z.min_l by lia. now rewrite Nat2Z.id.
  - rewrite Z.min_r by lia. rewrite Nat2Z.id.
    now rewrite !firstn_all2 by lia.
Qed.

(** ** The section-header interpretation, whatever the text *)

Lemma parse_sections_trimmed (raw : str) :
  trimmed (fst (parse_sections raw)) /\ trimmed (snd (parse_sections raw)).
Proof.
  unfold parse_sections. cbn [fst snd]. split; [apply strip_trimmed|].
  destruct (1 <? length (split raw ACTIONS))%nat; [apply strip_trimmed|].
  apply trimmed_fixed. reflexivity.
Qed.

Lemma parse_sections_actions_free (raw : str) :
  ~ contains (snd (parse_sections raw)) ACTIONS.
Proof.
  unfold parse_sections. cbn [snd].
  destruct (Nat.ltb_spec 1 (length (split raw ACTIONS))) as [L|L].
  - intros H. apply contains_strip in H.
    apply (split_pieces raw ACTIONS _ ACTIONS_nonempty) in H; [exact H|].
    now apply nth_In.
  - apply find_nat_None. reflexivity.
Qed.

(** ** The two model calls of [app.py] *)

Section HostedModel.
Context {rt : Runtime}.
Variable text_generation : generation -> result str.

(** [get_ai_response] calls the model once, with 100 new tokens at most
    and a prompt that holds the rating followed by the review between
    double quotes; it raises what the call raises, and it returns the
    completion trimmed, so the empty text for a completion of white space
    only. *)
Theorem get_ai_response_reply (user_review : str) (rating : Z) :
  exists call,
    snd (get_ai_response text_generation user_review rating) = [call]
    /\ gen_max_new_tokens call = 100%Z
    /\ contains (gen_prompt call)
         (str_int rating ++ lit "-star review: " ++ dq ++ user_review ++ dq)
    /\ (forall e, text_generation call = Raise e ->
        fst (get_ai_response text_generation user_review rating) = Raise e)
    /\ (forall response, text_generation call = Return response ->
        fst (get_ai_response text_generation user_review rating)
        = Return (strip response)
        /\ trimmed (strip response)
        /\ (forallb isspace response = true -> strip response = [])).
Proof.
  unfold get_ai_response.
  set (call := {| gen_prompt := reply_prompt user_review rating;
                  gen_max_new_tokens := 100;
                  gen_temperature := lit "0.7" |}).
  exists call. split; [destruct (text_generation call); reflexivity|].
  split; [reflexivity|]. split.
  - cbn [gen_prompt call]. unfold reply_prompt.
    eexists (nl ++ lit "    You are a helpful customer service AI. " ++ nl
             ++ lit "    A user just left a "), _.
    rewrite <- !app_assoc. reflexivity.
  - split.
    + intros e ->. reflexivity.
    + intros response ->. split; [reflexivity|]. split.
      * apply strip_trimmed.
      * apply strip_all_space.
Qed.

(** [analyze_feedback] on an empty frame returns the fixed pair without
    calling the model; on any other frame it calls the model once, with
    500 new tokens at most and a prompt that holds the line of each of the
    last twenty rows. *)
Theorem analyze_feedback_calls (r : row) (df : list row) :
  analyze_feedback text_generation [] = (Return no_data, [])
  /\ exists call,
       snd (analyze_feedback text_generation (r :: df)) = [call]
       /\ gen_max_new_tokens call = 500%Z
       /\ forall r', In r' (df_tail 20 (r :: df)) ->
                     contains (gen_prompt call) (review_line r').
Proof.
  split; [reflexivity|]. unfold analyze_feedback.
  set (call := {| gen_prompt := digest_prompt (recent_reviews (r :: df));
                  gen_max_new_tokens := 500;
                  gen_temperature := lit "0.5" |}).
  exists call. split; [destruct (text_generation call); reflexivity|].
  split; [reflexivity|]. intros r' Hr.
  cbn [gen_prompt call]. unfold digest_prompt, recent_reviews.
  destruct (contains_join nl (review_line r')
              (map review_line (df_tail 20 (r :: df)))) as [a [b E]];
    [now apply in_map|].
  rewrite E.
  eexists (nl ++ lit "    Analyze the following customer reviews:" ++ nl
           ++ lit "    " ++ a), _.
  rewrite <- !app_assoc. reflexivity.
Qed.

Lemma df_tail_app {A : Type} (n : nat) (old recent : list A) :
  n <= length recent -> df_tail n (old ++ recent) = df_tail n recent.
Proof.
  intros H. unfold df_tail. rewrite length_app, skipn_app.
  replace (length old + length recent - n - length old)
    with (length recent - n) by lia.
  rewrite skipn_all2 by lia. reflexivity.
Qed.

(** Only the last twenty rows count: the rows before them change neither
    the call nor the result. *)
Theorem analyze_feedback_last_twenty (old recent : list row) :
  20 <= length recent ->
  analyze_feedback text_generation (old ++ recent)
  = analyze_feedback text_generation recent.
Proof.
  intros H. unfold analyze_feedback, recent_reviews.
  rewrite (df_tail_app 20 old recent H).
  destruct recent as [|r recent]; [simpl in H; lia|].
  destruct old; reflexivity.
Qed.

(** Whatever the model answers, the two texts [analyze_feedback] returns
    are trimmed, and the actions hold no [ACTIONS:] marker. *)
Theorem analyze_feedback_texts (df : list row) (summary actions : str) :
  fst (analyze_feedback text_generation df) = Return (summary, actions) ->
  trimmed summary /\ trimmed actions /\ ~ contains actions ACTIONS.
Proof.
  unfold analyze_feedback. destruct df as [|r df].
  - intros [= <- <-].
    split; [|split]; try (apply trimmed_fixed; reflexivity).
    apply find_nat_None. reflexivity.
  - destruct (text_generation _) as [analysis|e]; [|discriminate].
    cbn [fst]. intros E0.
    assert (E : parse_sections analysis = (summary, actions)) by congruence.
    pose proof (parse_sections_trimmed analysis) as [T1 T2].
    pose proof (parse_sections_actions_free analysis) as F.
    rewrite E in T1, T2, F. cbn [fst snd] in T1, T2, F.
    split; [exact T1|split; [exact T2|exact F]].
Qed.

End HostedModel.

Lemma analyze_feedback_last_twenty_witness :
  20 <= length example_rows
  /\ @analyze_feedback example_runtime (fun _ => Return (lit "SUMMARY: ok"))
       ([{| row_rating := VInt 1; row_review := VStr (lit "old") |}] ++ example_rows)
     = @analyze_feedback example_runtime (fun _ => Return (lit "SUMMARY: ok"))
         example_rows.
Proof.
  assert (H : 20 <= length example_rows) by (vm_compute; lia).
  split; [exact H|].
  exact (@analyze_feedback_last_twenty example_runtime _ _ example_rows H).
Defined.

Lemma analyze_feedback_texts_witness :
  fst (@analyze_feedback example_runtime
         (fun _ => Return (lit " SUMMARY: ok ACTIONS: a ACTIONS: b"))
         example_rows)
  = Return (lit "ok", lit "a")
  /\ trimmed (lit "ok") /\ trimmed (lit "a") /\ ~ contains (lit "a") ACTIONS.
Proof.
  assert (H : fst (@analyze_feedback example_runtime
                     (fun _ => Return (lit " SUMMARY: ok ACTIONS: a ACTIONS: b"))
                     example_rows)
              = Return (lit "ok", lit "a")) by reflexivity.
  split; [exact H|].
  exact (@analyze_feedback_texts example_runtime _ _ _ _ H).
Defined.

(** ** The canned reply *)

(** For a rating of four or more, the reply to a review that is not empty
    quotes its first thirty characters, followed by three dots whatever
    the length of the review; for any rating, two reviews that are not
    empty and agree on their first thirty characters get the same reply. *)
Theorem generate_ai_response_excerpt (rating : Z) (review_text : str) :
  review_text <> [] ->
  ((4 <= rating)%Z ->
   generate_ai_response rating review_text
   = lit "We are thrilled to hear that! Thank you for the " ++ str_int rating
     ++ lit "-star feedback. We're glad you enjoyed: '"
     ++ firstn 30 review_text ++ lit "...'")
  /\ (forall other, other <> [] -> firstn 30 other = firstn 30 review_text ->
      generate_ai_response rating other = generate_ai_response rating review_text).
Proof.
  intros Hne.
  assert (S : forall s, slice s 0 30 = firstn 30 s)
    by (intros s; apply (slice_prefix s 30)).
  split.
  - intros H. destruct review_text as [|c t]; [congruence|].
    unfold generate_ai_response.
    destruct (Z.leb_spec 4 rating); [|lia]. now rewrite S.
  - intros other Ho E.
    destruct review_text as [|c t]; [congruence|].
    destruct other as [|d u]; [congruence|].
    unfold generate_ai_response. now rewrite !S, E.
Qed.

Lemma generate_ai_response_excerpt_witness :
  lit "ok" <> []
  /\ generate_ai_response 5 (lit "ok")
     = lit "We are thrilled to hear that! Thank you for the 5-star feedback. We're glad you enjoyed: 'ok...'".
Proof.
  assert (H : lit "ok" <> []) by discriminate.
  split; [exact H|].
  destruct (generate_ai_response_excerpt 5 (lit "ok") H) as [E _].
  rewrite E by lia. reflexivity.
Defined.

(** ** The review service client *)

Lemma lstrip_chars_repeat (c : char) (n : nat) (s : str) :
  lstrip_chars (repeat c n ++ s) [c] = lstrip_chars s [c].
Proof.
  induction n as [|n IH]; [reflexivity|].
  simpl. now rewrite N.eqb_refl.
Qed.

Lemma rev_repeat_char (c : char) (n : nat) : rev (repeat c n) = repeat c n.
Proof.
  induction n as [|n IH]; [reflexivity|].
  simpl. rewrite IH. symmetry. apply repeat_cons.
Qed.

Lemma rstrip_chars_repeat (c : char) (n : nat) (s : str) :
  rstrip_chars (s ++ repeat c n) [c] = rstrip_chars s [c].
Proof.
  unfold rstrip_chars.
  now rewrite rev_app_distr, rev_repeat_char, lstrip_chars_repeat.
Qed.

Lemma lstrip_chars_head (s chars : str) (c : char) (t : str) :
  lstrip_chars s chars = c :: t -> has_char c chars = false.
Proof.
  induction s as [|d s IH]; simpl; [discriminate|].
  destruct (has_char d chars) eqn:D; [exact IH|]. now intros [= <- _].
Qed.

Lemma rstrip_chars_last (s chars t : str) (c : char) :
  rstrip_chars s chars = t ++ [c] -> has_char c chars = false.
Proof.
  unfold rstrip_chars. intros H. apply (f_equal (@rev _)) in H.
  rewrite rev_involutive, rev_app_distr in H. simpl in H.
  now apply lstrip_chars_head in H.
Qed.

(** Slashes at the end of the base URL do not count: with any number of
    them the four client functions address the same URLs, in which the
    path [/reviews] follows a stem that does not end in a slash. *)
Theorem reviews_url_trailing_slashes (base_url : str) (n : nat) :
  reviews_url (base_url ++ repeat slash n) = reviews_url base_url
  /\ (forall idx,
      record_url (base_url ++ repeat slash n) idx = record_url base_url idx)
  /\ (forall get,
      fetch_via_api get (base_url ++ repeat slash n) = fetch_via_api get base_url)
  /\ (forall post payload,
      call_api_add post (base_url ++ repeat slash n) payload
      = call_api_add post base_url payload)
  /\ (forall put idx payload,
      call_api_update put (base_url ++ repeat slash n) idx payload
      = call_api_update put base_url idx payload)
  /\ (forall delete idx,
      call_api_delete delete (base_url ++ repeat slash n) idx
      = call_api_delete delete base_url idx)
  /\ exists stem,
       reviews_url base_url = stem ++ lit "/reviews"
       /\ ~ ends_with stem [slash].
Proof.
  assert (E : reviews_url (base_url ++ repeat slash n) = reviews_url base_url).
  { unfold reviews_url. change (lit "/") with [slash].
    now rewrite rstrip_chars_repeat. }
  split; [exact E|]. split; [|split; [|split; [|split; [|split]]]].
  - intros idx. unfold record_url. now rewrite E.
  - intros get. unfold fetch_via_api. now rewrite E.
  - intros post payload. unfold call_api_add. now rewrite E.
  - intros put idx payload. unfold call_api_update, record_url. now rewrite E.
  - intros delete idx. unfold call_api_delete, record_url. now rewrite E.
  - exists (rstrip_chars base_url (lit "/")). split; [reflexivity|].
    intros [t H]. apply rstrip_chars_last in H. discriminate.
Qed.

(** [fetch_via_api] answers [None] when the request raises, when the
    status is a client or server error (400 to 599) and when the body is
    not JSON; with any other status it returns the decoded body. *)
Theorem fetch_via_api_outcomes
  (get : str -> Z -> result response) (base_url : str) :
  (forall e, get (reviews_url base_url) 5%Z = Raise e ->
   fetch_via_api get base_url = VNone)
  /\ (forall resp, get (reviews_url base_url) 5%Z = Return resp ->
      ((400 <= status_code resp < 600)%Z ->
       fetch_via_api get base_url = VNone)
      /\ (forall m, json_loads (text resp) = JSONDecodeError m ->
          fetch_via_api get base_url = VNone)
      /\ (forall data,
          (status_code resp < 400 \/ 600 <= status_code resp)%Z ->
          json_loads (text resp) = Loaded data ->
          fetch_via_api get base_url = data)).
Proof.
  unfold fetch_via_api, raise_for_status, response_json. split.
  - now intros e ->.
  - intros resp ->. repeat split.
    + intros H.
      destruct (Z.leb_spec 400 (status_code resp)); [|lia].
      destruct (Z.ltb_spec (status_code resp) 600); [reflexivity|lia].
    + intros m ->. now destruct (_ && _).
    + intros data H ->.
      destruct (Z.leb_spec 400 (status_code resp));
        destruct (Z.ltb_spec (status_code resp) 600); try reflexivity; lia.
Qed.

(** Where [fetch_via_api] answers [None], the three modifying calls raise:
    the exception of the request itself, and [HTTPError] for a client or
    server error status, whatever the body holds. *)
Theorem call_api_errors_raise
  (base_url : str) (idx : Z) (payload : value) (resp : response) (e : exn) :
  (400 <= status_code resp < 600)%Z ->
  call_api_add (fun _ _ _ => Return resp) base_url payload = Raise RequestException
  /\ call_api_update (fun _ _ _ => Return resp) base_url idx payload
     = Raise RequestException
  /\ call_api_delete (fun _ _ => Return resp) base_url idx = Raise RequestException
  /\ fetch_via_api (fun _ _ => Return resp) base_url = VNone
  /\ call_api_add (fun _ _ _ => Raise e) base_url payload = Raise e
  /\ call_api_update (fun _ _ _ => Raise e) base_url idx payload = Raise e
  /\ call_api_delete (fun _ _ => Raise e) base_url idx = Raise e
  /\ fetch_via_api (fun _ _ => Raise e) base_url = VNone.
Proof.
  intros H.
  unfold call_api_add, call_api_update, call_api_delete, fetch_via_api,
    checked_json, raise_for_status.
  destruct (Z.leb_spec 400 (status_code resp)); [|lia].
  destruct (Z.ltb_spec (status_code resp) 600); [|lia].
  repeat split.
Qed.

Lemma call_api_errors_raise_witness :
  (400 <= status_code {| status_code := 404; text := lit "{}" |} < 600)%Z
  /\ call_api_delete (fun _ _ => Return {| status_code := 404; text := lit "{}" |})
       (lit "http://localhost:5000/") 3
     = Raise RequestException.
Proof.
  assert (H : (400 <= status_code {| status_code := 404; text := lit "{}" |} < 600)%Z)
    by (simpl; lia).
  split; [exact H|].
  exact (proj1 (proj2 (proj2
           (call_api_errors_raise (lit "http://localhost:5000/") 3 VNone
              {| status_code := 404; text := lit "{}" |} TypeError H)))).
Defined.
(** ** More on the model call and the strict interpretation *)

Lemma skip_ws_all_blank (s : str) : blank s = true -> skip_ws s = [].
Proof.
  induction s as [|c s IH]; [reflexivity|]. simpl.
  intros H. apply andb_prop in H as [-> H]. now apply IH.
Qed.

Lemma json_loads_blank (s : str) :
  blank s = true -> json_loads s = JSONDecodeError ExpectingValue.
Proof.
  intros H. unfold json_loads. rewrite (skip_ws_all_blank s H).
  replace (2 * length s + 1) with (S (2 * length s)) by lia. reflexivity.
Qed.

(** In a [dict] made from pairs, the last pair of a key gives its value. *)
Lemma dict_lookup_of_pairs_last (ps : list (str * value)) (k : str) (v : value) :
  dict_lookup (dict_of_pairs (ps ++ [(k, v)])) k = Some v.
Proof.
  unfold dict_of_pairs. rewrite fold_left_app. simpl.
  apply dict_lookup_set_same.
Qed.

Section ModelCallMore.
Context {rt : Runtime}.

(** With a credential, [call_llm] sends exactly one request whatever
    comes back (a failure of the network, an error status, a body that is
    not JSON or one of any shape): to the model's URL, with the bearer
    token, the prompt, the token limit and a timeout of 60 seconds. *)
Theorem call_llm_sends_one_request
  (c : char) (token : str) (post : request -> result response)
  (prompt : str) (max_new_tokens : Z) :
  snd (call_llm (Some (c :: token)) post prompt max_new_tokens)
  = [llm_request (c :: token) prompt max_new_tokens].
Proof.
  unfold call_llm, llm_request.
  destruct (post _) as [resp|e]; [|reflexivity].
  destruct (negb _); [reflexivity|].
  destruct (response_json resp); reflexivity.
Qed.

(** Only a missing credential and a status other than 200 are reported as
    [LLMError]: an exception of the network is raised as it is, and a 200
    response whose body is not JSON (an empty body, for one) raises the
    decoder's error. *)
Theorem call_llm_failures_propagate
  (c : char) (token : str) (post : request -> result response)
  (prompt : str) (max_new_tokens : Z) :
  (forall e, post (llm_request (c :: token) prompt max_new_tokens) = Raise e ->
   fst (call_llm (Some (c :: token)) post prompt max_new_tokens) = Raise e)
  /\ (forall resp,
      post (llm_request (c :: token) prompt max_new_tokens) = Return resp ->
      status_code resp = 200%Z ->
      (forall m, json_loads (text resp) = JSONDecodeError m ->
       fst (call_llm (Some (c :: token)) post prompt max_new_tokens)
       = Raise (ResponseNotJson m))
      /\ (blank (text resp) = true ->
          fst (call_llm (Some (c :: token)) post prompt max_new_tokens)
          = Raise (ResponseNotJson ExpectingValue))).
Proof.
  unfold call_llm. fold (llm_request (c :: token) prompt max_new_tokens).
  split.
  - now intros e ->.
  - intros resp -> ->. cbn [negb Z.eqb Pos.eqb]. unfold response_json.
    split.
    + now intros m ->.
    + intros B. now rewrite (json_loads_blank _ B).
Qed.

(** What [generate_feedback] makes of a 200 response whose body is a list
    that starts with an object holding [generated_text]: the strict
    interpretation of that text when it is a string, and an
    [AttributeError] (from [raw_text.find]) when it is anything else. *)
Theorem generate_feedback_on_completion
  (c : char) (token : str) (resp : response)
  (d : list (str * value)) (others : list value) (v : value)
  (rating : Z) (review : str) :
  status_code resp = 200%Z ->
  json_loads (text resp) = Loaded (VList (VDict d :: others)) ->
  dict_lookup d generated_text = Some v ->
  generate_feedback (Some (c :: token)) (fun _ => Return resp) rating review
  = match v with
    | VStr raw_output => parse_and_normalize raw_output
    | _ => Raise AttributeError
    end.
Proof.
  intros Hs Hj Hd. unfold generate_feedback, call_llm, response_json.
  rewrite Hs, Hj. cbn [negb Z.eqb Pos.eqb fst].
  unfold generated_text_of, py_in, py_getitem. rewrite Hd.
  destruct v; reflexivity.
Qed.

(** When the object names a key twice, the last value counts: here for
    [summary], in an object between two texts without braces. *)
Theorem parse_and_normalize_last_summary_wins
  (pre post : str) (ms : list member) (pairs : list (str * value)) (v : value) :
  ~ In lbrace pre -> ~ In rbrace post ->
  object_pairs ms = Some (pairs ++ [(lit "summary", v)]) ->
  exists fb,
    parse_and_normalize (pre ++ object_text ms ++ post) = Return fb
    /\ summary fb = v.
Proof.
  intros Hpre Hpost Hpairs.
  assert (Hne : ms <> []).
  { intros ->. injection Hpairs as E. now destruct pairs. }
  unfold parse_and_normalize, object_text.
  replace (pre ++ ([lbrace] ++ join comma (map member_text ms) ++ [rbrace]) ++ post)
    with (pre ++ [lbrace] ++ join comma (map member_text ms) ++ [rbrace] ++ post)
    by (now rewrite <- !app_assoc).
  destruct (parse_llm_json_span pre (join comma (map member_text ms)) post
              Hpre Hpost) as [_ [_ ->]].
  unfold parse_span. fold (object_text ms).
  rewrite (json_loads_object ms _ Hne Hpairs).
  unfold normalize. eexists. split; [reflexivity|].
  cbn [summary]. unfold dict_get.
  now rewrite dict_lookup_of_pairs_last.
Qed.

End ModelCallMore.

Lemma generate_feedback_on_completion_witness :
  status_code null_completion = 200%Z
  /\ json_loads (text null_completion)
     = Loaded (VList [VDict [(generated_text, VNone)]])
  /\ dict_lookup [(generated_text, VNone)] generated_text = Some VNone
  /\ @generate_feedback example_runtime (Some (lit "hf_token"))
       (fun _ => Return null_completion) 5 (lit "Great food!")
     = Raise AttributeError.
Proof.
  assert (H1 : status_code null_completion = 200%Z) by reflexivity.
  assert (H2 : json_loads (text null_completion)
               = Loaded (VList [VDict [(generated_text, VNone)]]))
    by (vm_compute; reflexivity).
  assert (H3 : dict_lookup [(generated_text, VNone)] generated_text = Some VNone)
    by reflexivity.
  split; [exact H1|]. split; [exact H2|]. split; [exact H3|].
  exact (@generate_feedback_on_completion example_runtime 104%N (lit "f_token")
           null_completion _ _ _ 5%Z (lit "Great food!") H1 H2 H3).
Defined.

Lemma parse_and_normalize_last_summary_wins_witness :
  ~ In lbrace (lit "Here: ")
  /\ ~ In rbrace (lit " Bye.")
  /\ object_pairs twice_summary
     = Some ([(lit "summary", VStr (lit "first"))]
             ++ [(lit "summary", VStr (lit "second"))])
  /\ exists fb,
       @parse_and_normalize example_runtime
         (lit "Here: " ++ object_text twice_summary ++ lit " Bye.") = Return fb
       /\ summary fb = VStr (lit "second").
Proof.
  assert (H1 : ~ In lbrace (lit "Here: ")) by (apply find_char_none; reflexivity).
  assert (H2 : ~ In rbrace (lit " Bye.")) by (apply find_char_none; reflexivity).
  assert (H3 : object_pairs twice_summary
               = Some ([(lit "summary", VStr (lit "first"))]
                       ++ [(lit "summary", VStr (lit "second"))]))
    by reflexivity.
  split; [exact H1|]. split; [exact H2|]. split; [exact H3|].
  exact (@parse_and_normalize_last_summary_wins example_runtime
           _ _ _ _ _ H1 H2 H3).
Defined.
(** ** Integers, written and read *)

Lemma digits_are_digits (d : Decimal.uint) : forallb is_digit (digits d) = true.
Proof. induction d; simpl; try assumption; reflexivity. Qed.

Ltac eval_ord :=
  repeat match goal with
  | |- context [ord ?a] =>
      let v := eval vm_compute in (ord a) in change (ord a) with v
  end.

Ltac digits_step :=
  unfold digits;
  cbn [lit NilEmpty.string_of_uint list_ascii_of_string map fold_left
       Pos.of_uint_acc Pos.of_uint];
  eval_ord; fold lit;
  repeat match goal with
  | |- context [lit (NilEmpty.string_of_uint ?d)] =>
      change (lit (NilEmpty.string_of_uint d)) with (digits d)
  end.

Lemma fold_digits_acc (d : Decimal.uint) :
  forall p,
    fold_left digit_step (digits d) (Z.pos p) = Z.pos (Pos.of_uint_acc d p).
Proof.
  induction d; intros p; [reflexivity|..]; digits_step.
  all: rewrite <- IHd; f_equal; unfold digit_step;
       match goal with
       | |- context [Z.of_N ?n] =>
           let v := eval vm_compute in (Z.of_N n) in change (Z.of_N n) with v
       end; lia.
Qed.

Lemma fold_digits (d : Decimal.uint) :
  fold_left digit_step (digits d) 0%Z = Z.of_N (Pos.of_uint d).
Proof.
  induction d; [reflexivity|..]; digits_step.
  - exact IHd.
  - apply (fold_digits_acc d 1).
  - apply (fold_digits_acc d 2).
  - apply (fold_digits_acc d 3).
  - apply (fold_digits_acc d 4).
  - apply (fold_digits_acc d 5).
  - apply (fold_digits_acc d 6).
  - apply (fold_digits_acc d 7).
  - apply (fold_digits_acc d 8).
  - apply (fold_digits_acc d 9).
Qed.

Lemma nzhead_not_D0 (u v : Decimal.uint) : Decimal.nzhead u <> Decimal.D0 v.
Proof. induction u; simpl; try discriminate. exact IHu. Qed.

(** The decimal text of a positive number: digits, the first not [0]. *)
Lemma to_uint_head (p : positive) :
  exists c ds,
    digits (Pos.to_uint p) = c :: ds
    /\ is_digit c = true /\ (c =? 48)%N = false
    /\ forallb is_digit ds = true.
Proof.
  pose proof (DecimalPos.Unsigned.to_of (Pos.to_uint p)) as U.
  rewrite DecimalPos.Unsigned.of_to in U.
  change (N.to_uint (N.pos p)) with (Pos.to_uint p) in U.
  pose proof (DecimalPos.Unsigned.to_uint_nonzero p) as NZ.
  pose proof (digits_are_digits (Pos.to_uint p)) as D.
  destruct (Pos.to_uint p) eqn:E.
  - exfalso. now apply (DecimalPos.Unsigned.to_uint_nonnil p).
  - exfalso. unfold Decimal.unorm in U. simpl in U.
    destruct (Decimal.nzhead u) eqn:N; try discriminate.
    + apply NZ. congruence.
    + now apply (nzhead_not_D0 u u0).
  - revert D. digits_step. simpl. eauto 10.
  - revert D. digits_step. simpl. eauto 10.
  - revert D. digits_step. simpl. eauto 10.
  - revert D. digits_step. simpl. eauto 10.
  - revert D. digits_step. simpl. eauto 10.
  - revert D. digits_step. simpl. eauto 10.
  - revert D. digits_step. simpl. eauto 10.
  - revert D. digits_step. simpl. eauto 10.
  - revert D. digits_step. simpl. eauto 10.
Qed.

Lemma span_digits_app (ds rest : str) :
  forallb is_digit ds = true -> number_end rest = true ->
  span_digits (ds ++ rest) = (ds, rest).
Proof.
  intros D E. induction ds as [|c ds IH].
  - destruct rest as [|c r]; [reflexivity|]. simpl in *.
    destruct (is_digit c); [discriminate|reflexivity].
  - simpl in D. apply andb_prop in D as [Dc D].
    simpl. rewrite Dc, (IH D). reflexivity.
Qed.

Lemma match_frac_end (rest : str) :
  number_end rest = true -> match_frac rest = ([], rest).
Proof.
  destruct rest as [|c r]; [reflexivity|]. simpl. intros H.
  destruct (c =? 46)%N; [|reflexivity].
  rewrite andb_false_r in H. simpl in H.
  rewrite ?andb_false_r in H. discriminate.
Qed.

Lemma match_exp_end (rest : str) :
  number_end rest = true -> match_exp rest = ([], rest).
Proof.
  destruct rest as [|c r]; [reflexivity|]. simpl. intros H.
  destruct (c =? 101)%N;
    [rewrite ?andb_false_r in H; simpl in H; rewrite ?andb_false_r in H;
     discriminate|].
  destruct (c =? 69)%N; [rewrite ?andb_false_r in H; discriminate|reflexivity].
Qed.

Lemma str_int_pos (p : positive) : str_int (Z.pos p) = digits (Pos.to_uint p).
Proof.
  unfold str_int, digits. simpl Z.to_int.
  unfold NilZero.string_of_int, NilZero.string_of_uint.
  pose proof (DecimalPos.Unsigned.to_uint_nonnil p).
  destruct (Pos.to_uint p); [congruence|reflexivity..].
Qed.

Lemma str_int_neg (p : positive) :
  str_int (Z.neg p) = 45%N :: digits (Pos.to_uint p).
Proof.
  unfold str_int, digits. simpl Z.to_int.
  unfold NilZero.string_of_int, NilZero.string_of_uint.
  pose proof (DecimalPos.Unsigned.to_uint_nonnil p).
  destruct (Pos.to_uint p); [congruence|reflexivity..].
Qed.

Lemma int_of_digits_to_uint (p : positive) :
  int_of_digits (digits (Pos.to_uint p)) = Z.pos p.
Proof.
  unfold int_of_digits.
  change (fold_left _ ?l 0%Z) with (fold_left digit_step l 0%Z).
  rewrite fold_digits, DecimalPos.Unsigned.of_to. reflexivity.
Qed.

Lemma match_integer_digits (p : positive) (rest : str) :
  number_end rest = true ->
  match_integer (digits (Pos.to_uint p) ++ rest)
  = Some (digits (Pos.to_uint p), rest).
Proof.
  intros E. destruct (to_uint_head p) as [c [ds [H [Dc [Nz D]]]]].
  rewrite H. simpl. rewrite Nz, Dc. now rewrite (span_digits_app ds rest D E).
Qed.

(** The scanner reads the decimal text of an integer back as that
    integer, and stops where the text ends. *)
Lemma match_number_str_int (z : Z) (rest : str) :
  number_end rest = true ->
  match_number (str_int z ++ rest) = Some (VInt z, rest).
Proof.
  intros E. destruct z as [|p|p].
  - change (str_int 0) with [48%N]. unfold match_number. simpl.
    now rewrite (match_frac_end rest E), (match_exp_end rest E).
  - rewrite str_int_pos. unfold match_number.
    destruct (to_uint_head p) as [c [ds [H [Dc [Nz D]]]]].
    assert (Hm : (c =? 45)%N = false).
    { destruct (N.eqb_spec c 45) as [->|]; [discriminate|reflexivity]. }
    pose proof (match_integer_digits p rest E) as M. rewrite H in *.
    cbn [app]. rewrite Hm. cbn [app] in M. rewrite M.
    rewrite (match_frac_end rest E), (match_exp_end rest E).
    rewrite <- H, int_of_digits_to_uint. reflexivity.
  - rewrite str_int_neg. unfold match_number. cbn [app].
    change (45 =? 45)%N with true. cbv iota.
    rewrite (match_integer_digits p rest E).
    rewrite (match_frac_end rest E), (match_exp_end rest E).
    rewrite int_of_digits_to_uint. reflexivity.
Qed.

(** The first character of the decimal text of an integer. *)
Lemma str_int_head (z : Z) :
  exists c t, str_int z = c :: t /\ (is_digit c = true \/ c = 45%N).
Proof.
  destruct z as [|p|p].
  - exists 48%N, []. split; [reflexivity|now left].
  - rewrite str_int_pos. destruct (to_uint_head p) as [c [ds [H [Dc _]]]].
    exists c, ds. split; [assumption|now left].
  - rewrite str_int_neg. eexists _, _. split; [reflexivity|now right].
Qed.

Lemma str_int_injective (z1 z2 : Z) : str_int z1 = str_int z2 -> z1 = z2.
Proof.
  intros H.
  pose proof (match_number_str_int z1 [] eq_refl) as M1.
  pose proof (match_number_str_int z2 [] eq_refl) as M2.
  rewrite H in M1. congruence.
Qed.

(** ** Texts, written and read *)

Lemma hexval_hex_digit (d : N) : (d < 16)%N -> hexval (hex_digit d) = Some d.
Proof.
  intros H.
  assert (C : In d [0;1;2;3;4;5;6;7;8;9;10;11;12;13;14;15]%N)
    by (simpl; lia).
  simpl in C. repeat (destruct C as [<-|C]; [reflexivity|]). destruct C.
Qed.

Lemma hex_digits_4 (c : N) :
  hex_digits 4 c = let '(h1, h2, h3, h4) := hex4 c in [h1; h2; h3; h4].
Proof. reflexivity. Qed.

Lemma decode_hex4 (c : N) :
  (c < 65536)%N ->
  let '(h1, h2, h3, h4) := hex4 c in decode_uXXXX h1 h2 h3 h4 = Some c.
Proof.
  intros H. unfold hex4, decode_uXXXX.
  rewrite !hexval_hex_digit by (apply N.mod_lt; discriminate).
  f_equal. zify. Z.to_euclidean_division_equations. lia.
Qed.

Lemma lor_shiftl_low (a x : N) (n : N) :
  (x < 2 ^ n)%N -> N.lor (N.shiftl a n) x = (a * 2 ^ n + x)%N.
Proof.
  intros H.
  assert (L : N.land (N.shiftl a n) x = 0%N).
  { apply N.bits_inj_0. intros k. rewrite N.land_spec.
    destruct (N.lt_ge_cases k n) as [K|K].
    - rewrite N.shiftl_spec_low by assumption. reflexivity.
    - destruct (N.eq_dec x 0) as [->|Hx];
        [rewrite N.bits_0; apply andb_false_r|].
      rewrite (N.bits_above_log2 x k); [apply andb_false_r|].
      apply N.log2_lt_pow2; [lia|].
      eapply N.lt_le_trans; [exact H|]. apply N.pow_le_mono_r; lia. }
  rewrite <- N.lxor_lor by assumption.
  rewrite <- N.add_nocarry_lxor by assumption.
  now rewrite N.shiftl_mul_pow2.
Qed.

(** The two halves written for a character beyond the basic plane are a
    surrogate pair, which the decoder joins to the character. *)
Lemma surrogates_join (c : N) :
  (65536 <= c <= 1114111)%N ->
  let n := (c - 65536)%N in
  let s1 := N.lor 55296 (N.land (N.shiftr n 10) 1023) in
  let s2 := N.lor 56320 (N.land n 1023) in
  is_high_surrogate s1 = true /\ is_low_surrogate s2 = true
  /\ join_surrogates s1 s2 = c /\ (s1 < 65536)%N /\ (s2 < 65536)%N.
Proof.
  intros H n s1 s2.
  assert (Hn : (n < 1048576)%N) by (unfold n; lia).
  assert (E1 : N.land (N.shiftr n 10) 1023 = (n / 1024)%N).
  { change 1023%N with (N.ones 10). rewrite N.land_ones, N.shiftr_div_pow2.
    change (2 ^ 10)%N with 1024%N. apply N.mod_small.
    zify. Z.to_euclidean_division_equations. lia. }
  assert (E2 : N.land n 1023 = (n mod 1024)%N).
  { change 1023%N with (N.ones 10). now rewrite N.land_ones. }
  assert (S1 : s1 = (55296 + n / 1024)%N).
  { unfold s1. rewrite E1. change 55296%N with (N.shiftl 54 10).
    rewrite lor_shiftl_low; [reflexivity|].
    change (2 ^ 10)%N with 1024%N. zify. Z.to_euclidean_division_equations. lia. }
  assert (S2 : s2 = (56320 + n mod 1024)%N).
  { unfold s2. rewrite E2. change 56320%N with (N.shiftl 55 10).
    rewrite lor_shiftl_low; [reflexivity|].
    change (2 ^ 10)%N with 1024%N. apply N.mod_lt. discriminate. }
  assert (B1 : (n / 1024 < 1024)%N)
    by (zify; Z.to_euclidean_division_equations; lia).
  assert (B2 : (n mod 1024 < 1024)%N) by (apply N.mod_lt; discriminate).
  rewrite S1, S2. unfold is_high_surrogate, is_low_surrogate, join_surrogates.
  repeat split.
  - apply andb_true_iff. split; apply N.leb_le; lia.
  - apply andb_true_iff. split; apply N.leb_le; lia.
  - replace (55296 + n / 1024 - 55296)%N with (n / 1024)%N by lia.
    replace (56320 + n mod 1024 - 56320)%N with (n mod 1024)%N by lia.
    rewrite lor_shiftl_low by (change (2 ^ 10)%N with 1024%N; assumption).
    change (2 ^ 10)%N with 1024%N. unfold n.
    zify. Z.to_euclidean_division_equations. lia.
  - lia.
  - lia.
Qed.

Ltac case_eqb c k :=
  destruct (N.eqb_spec c k) as [->|?]; [try reflexivity|].

Lemma item_text_of (c : char) : item_text (item_of c) = escape_char c.
Proof.
  unfold item_of, escape_char.
  case_eqb c 34%N. case_eqb c 92%N. case_eqb c 8%N. case_eqb c 12%N.
  case_eqb c 10%N. case_eqb c 13%N. case_eqb c 9%N.
  destruct ((32 <=? c) && (c <=? 126))%N; [reflexivity|].
  destruct (c <? 65536)%N.
  - rewrite hex_digits_4. now destruct (hex4 c) as [[[h1 h2] h3] h4].
  - cbv zeta. rewrite !hex_digits_4.
    destruct (hex4 (N.lor 55296 _)) as [[[h1 h2] h3] h4].
    now destruct (hex4 (N.lor 56320 _)) as [[[k1 k2] k3] k4].
Qed.

Lemma item_char_of (c : char) : is_scalar c = true -> item_char (item_of c) = Some c.
Proof.
  intros S. unfold item_of.
  case_eqb c 34%N. case_eqb c 92%N. case_eqb c 8%N. case_eqb c 12%N.
  case_eqb c 10%N. case_eqb c 13%N. case_eqb c 9%N.
  destruct ((32 <=? c) && (c <=? 126))%N eqn:P.
  - apply andb_prop in P as [P1 P2]. apply N.leb_le in P1.
    simpl. destruct (N.leb_spec c 31); [lia|].
    destruct (N.eqb_spec c 34); [congruence|].
    destruct (N.eqb_spec c 92); [congruence|]. reflexivity.
  - unfold is_scalar in S.
    destruct (N.ltb_spec c 65536) as [L|L].
    + pose proof (decode_hex4 c L) as D.
      destruct (hex4 c) as [[[h1 h2] h3] h4]. simpl. rewrite D.
      unfold is_high_surrogate.
      destruct (N.ltb_spec c 55296); simpl in S.
      * destruct (N.leb_spec 55296 c); [lia|reflexivity].
      * apply andb_prop in S as [S1 _]. apply N.leb_le in S1.
        destruct (N.leb_spec c 56319); [lia|]. now rewrite andb_false_r.
    + assert (B : (65536 <= c <= 1114111)%N).
      { destruct (N.ltb_spec c 55296); [lia|]. simpl in S.
        apply andb_prop in S as [_ S2]. apply N.leb_le in S2. lia. }
      destruct (surrogates_join c B) as [Hh [Hl [J [B1 B2]]]].
      cbv zeta.
      pose proof (decode_hex4 _ B1) as D1. pose proof (decode_hex4 _ B2) as D2.
      destruct (hex4 (N.lor 55296 _)) as [[[h1 h2] h3] h4].
      destruct (hex4 (N.lor 56320 _)) as [[[k1 k2] k3] k4].
      cbv beta iota in D1, D2 |- *. cbn [item_char].
      rewrite D1, D2, Hh, Hl. cbn [andb]. now rewrite J.
Qed.

Lemma string_chars_of (s : str) :
  forallb is_scalar s = true -> string_chars (map item_of s) = Some s.
Proof.
  unfold string_chars. induction s as [|c s IH]; intros H; [reflexivity|].
  simpl in H. apply andb_prop in H as [Hc Hs].
  simpl. rewrite (item_char_of c Hc), (IH Hs). reflexivity.
Qed.

Lemma flat_map_item_of (s : str) :
  flat_map item_text (map item_of s) = flat_map escape_char s.
Proof.
  induction s as [|c s IH]; [reflexivity|].
  simpl. now rewrite item_text_of, IH.
Qed.

(** The scanner reads an encoded text of scalar values back unchanged. *)
Lemma scanstring_encoded (s rest : str) :
  forallb is_scalar s = true ->
  scanstring (flat_map escape_char s ++ dq ++ rest) [] = Scanned s rest.
Proof.
  intros H. rewrite <- flat_map_item_of.
  now rewrite (scanstring_items (map item_of s) s [] rest (string_chars_of s H)).
Qed.
(** ** Values, written and read *)

Lemma value_ind' (P : value -> Prop) :
  P VNone -> (forall b, P (VBool b)) -> (forall z, P (VInt z)) ->
  (forall x, P (VFloat x)) -> (forall s, P (VStr s)) ->
  (forall l, Forall P l -> P (VList l)) ->
  (forall d, Forall (fun kv => P (snd kv)) d -> P (VDict d)) ->
  forall v, P v.
Proof.
  intros HN HB HI HF HS HL HD. fix IH 1. intros [ |b|z|x|s|l|d].
  - exact HN.
  - apply HB.
  - apply HI.
  - apply HF.
  - apply HS.
  - apply HL. induction l as [|x l IHl]; constructor; [apply IH|exact IHl].
  - apply HD. induction d as [|[k x] d IHd]; constructor; [apply IH|exact IHd].
Qed.

Lemma value_size_pos (v : value) : 1 <= value_size v.
Proof. destruct v; simpl; lia. Qed.

Lemma newline_indent_blank (level : nat) : blank (newline_indent level) = true.
Proof.
  unfold newline_indent. simpl. induction level as [|n IH]; [reflexivity|].
  simpl. exact IH.
Qed.

Lemma is_digit_not_ws (c : char) : is_digit c = true -> is_ws c = false.
Proof.
  unfold is_digit, is_ws. intros H. apply andb_prop in H as [H1 H2].
  apply N.leb_le in H1. apply N.leb_le in H2.
  repeat match goal with
         | |- context [(c =? ?k)%N] => destruct (N.eqb_spec c k); [lia|]
         end.
  reflexivity.
Qed.

Lemma join_head (sep p : str) (ps : list str) (c : char) (t tail : str) :
  p = c :: t -> exists t', join sep (p :: ps) ++ tail = c :: t'.
Proof. intros ->. destruct ps; simpl; eauto. Qed.

Lemma join_map_cons2 {A : Type} (sep : str) (f : A -> str) (x y : A) (l : list A) :
  join sep (map f (x :: y :: l)) = f x ++ sep ++ join sep (map f (y :: l)).
Proof. reflexivity. Qed.

Lemma unique_keys_NoDup (keys : list str) : unique_keys keys = true -> NoDup keys.
Proof.
  induction keys as [|k keys IH]; intros H; constructor;
    simpl in H; apply andb_prop in H as [H1 H2].
  - intros K. apply negb_true_iff in H1.
    assert (E : existsb (str_eqb k) keys = true).
    { apply existsb_exists. exists k. split; [assumption|apply str_eqb_refl]. }
    congruence.
  - now apply IH.
Qed.

Lemma dict_set_fresh (acc : list (str * value)) (k : str) (v : value) :
  ~ In k (map fst acc) -> dict_set acc k v = acc ++ [(k, v)].
Proof.
  induction acc as [|[k' v'] acc IH]; intros H; [reflexivity|].
  simpl. rewrite str_eqb_neq by (intros ->; apply H; now left).
  rewrite IH; [reflexivity|]. intros K. apply H. now right.
Qed.

(** Pairs with pairwise different keys make the [dict] that lists them. *)
Lemma dict_of_pairs_NoDup (d : list (str * value)) :
  NoDup (map fst d) -> dict_of_pairs d = d.
Proof.
  unfold dict_of_pairs.
  assert (G : forall acc,
             NoDup (map fst (acc ++ d)) ->
             fold_left (fun d kv => dict_set d (fst kv) (snd kv)) d acc = acc ++ d).
  { induction d as [|[k v] d IH]; intros acc H; [now rewrite app_nil_r|].
    simpl. rewrite dict_set_fresh.
    - rewrite IH; rewrite <- app_assoc; [reflexivity|exact H].
    - rewrite map_app in H. simpl in H. apply NoDup_remove_2 in H.
      intros K. apply H. apply in_or_app. now left. }
  intros H. now apply (G []).
Qed.

Section Encoder.
Context {rt : Runtime}.

(** The text of a plain value starts with a character that is neither
    white space nor a closing bracket. *)
Lemma iterencode_head (level : nat) (v : value) :
  plain_value v = true ->
  exists c t,
    iterencode level v = c :: t /\ is_ws c = false /\ (c =? 93)%N = false.
Proof.
  destruct v as [ |[|]|z|x|s|[|y l]|[|kv d]]; intros H; try discriminate;
    try (eexists _, _; split; [reflexivity|split; reflexivity]).
  destruct (str_int_head z) as [c [t [E [D| ->]]]].
  - exists c, t. split; [exact E|]. split; [now apply is_digit_not_ws|].
    unfold is_digit in D. apply andb_prop in D as [_ D]. apply N.leb_le in D.
    destruct (N.eqb_spec c 93); [lia|reflexivity].
  - exists 45%N, t. split; [exact E|]. split; reflexivity.
Qed.

Lemma skip_ws_iterencode (level : nat) (v : value) (rest : str) :
  plain_value v = true ->
  skip_ws (iterencode level v ++ rest) = iterencode level v ++ rest.
Proof.
  intros H. destruct (iterencode_head level v H) as [c [t [E [W _]]]].
  rewrite E. now apply skip_ws_nonblank.
Qed.

Lemma scan_once_number (n : nat) (z : Z) (rest : str) :
  number_end rest = true ->
  scan_once (S n) (str_int z ++ rest) = Scanned (VInt z) rest.
Proof.
  intros E. pose proof (match_number_str_int z rest E) as M.
  destruct (str_int_head z) as [c [t [Ez D]]]. rewrite Ez in *.
  assert (F : forall k, In k [34; 123; 91; 110; 116; 102]%N -> (k =? c)%N = false).
  { intros k Hk. destruct (N.eqb_spec k c) as [<-|]; [|reflexivity].
    exfalso. simpl in Hk. destruct D as [D|D].
    - repeat (destruct Hk as [<-|Hk]; [discriminate|]). destruct Hk.
    - repeat (destruct Hk as [<-|Hk]; [discriminate|]). destruct Hk. }
  rewrite scan_once_S. cbn [app].
  rewrite (N.eqb_sym c 34), (N.eqb_sym c 123), (N.eqb_sym c 91).
  rewrite !F by (simpl; tauto).
  unfold scan_literal. cbn [app] in M. rewrite M.
  cbn [startswith lit list_ascii_of_string map]. eval_ord.
  rewrite !F by (simpl; tauto). reflexivity.
Qed.

Lemma scan_once_open_list (n : nat) (w s : str) (c : char) (t : str) :
  blank w = true -> s = c :: t -> is_ws c = false -> (c =? 93)%N = false ->
  scan_once (S n) (91%N :: w ++ s) = array_loop n s [].
Proof.
  intros Hw -> Hc Hn. rewrite scan_once_S.
  change (91 =? 34)%N with false. change (91 =? 123)%N with false.
  change (91 =? 91)%N with true. cbv iota.
  rewrite (skip_ws_blank w _ Hw), (skip_ws_nonblank c t Hc). now rewrite Hn.
Qed.

Lemma scan_once_open_dict (n : nat) (w s : str) :
  blank w = true ->
  scan_once (S n) (123%N :: w ++ 34%N :: s) = object_loop n s [].
Proof.
  intros Hw. rewrite scan_once_S.
  change (123 =? 34)%N with false. change (123 =? 123)%N with true. cbv iota.
  rewrite (skip_ws_blank w _ Hw). reflexivity.
Qed.

Lemma array_loop_items (level : nat) (l : list value) :
  Forall reads_back l -> forallb plain_value l = true -> l <> [] ->
  forall values n rest,
    S (fold_right (fun x n => value_size x + n) 0 l) <= n ->
    array_loop n (join (item_separator level) (map (iterencode (S level)) l)
                  ++ newline_indent level ++ lit "]" ++ rest) values
    = Scanned (VList (values ++ l)) rest.
Proof.
  induction l as [|x l IH]; intros HF Hp Hne values n rest Hn; [congruence|].
  inversion HF as [|? ? Hx HF']; subst.
  simpl in Hp. apply andb_prop in Hp as [Hpx Hp].
  destruct n as [|m]; [simpl in Hn; lia|].
  simpl fold_right in Hn. pose proof (value_size_pos x) as Hs.
  rewrite array_loop_S. destruct l as [|y l'].
  - simpl join.
    rewrite (Hx Hpx (S level) m (newline_indent level ++ lit "]" ++ rest))
      by (try reflexivity; simpl in Hn; lia).
    cbv zeta. rewrite skip_ws_blank by apply newline_indent_blank.
    change (skip_ws (lit "]" ++ rest)) with (93%N :: rest).
    reflexivity.
  - rewrite join_map_cons2, <- !app_assoc.
    rewrite (Hx Hpx (S level) m _) by (try reflexivity; lia).
    cbv zeta.
    change (skip_ws (item_separator level ++ ?t))
      with (44%N :: newline_indent (S level) ++ t).
    change (44 =? 93)%N with false. change (negb (44 =? 44)%N) with false.
    cbv iota.
    rewrite skip_ws_blank by apply newline_indent_blank.
    simpl in Hp. pose proof Hp as Hp'. apply andb_prop in Hp' as [Hpy _].
    destruct (iterencode_head (S level) y Hpy) as [c [t [E [W _]]]].
    destruct (join_head (item_separator level) _
                (map (iterencode (S level)) l') c t
                (newline_indent level ++ lit "]" ++ rest) E) as [t' Et].
    change (map (iterencode (S level)) (y :: l'))
      with (iterencode (S level) y :: map (iterencode (S level)) l').
    rewrite Et, (skip_ws_nonblank c t' W), <- Et.
    change (iterencode (S level) y :: map (iterencode (S level)) l')
      with (map (iterencode (S level)) (y :: l')).
    rewrite (IH HF' Hp) by (try discriminate; lia).
    now rewrite <- app_assoc.
Qed.

Lemma object_loop_entries (level : nat) (d : list (str * value)) :
  Forall (fun kv => reads_back (snd kv)) d ->
  forallb (fun kv => forallb is_scalar (fst kv) && plain_value (snd kv)) d = true ->
  d <> [] ->
  forall pairs n rest,
    S (fold_right (fun kv n => value_size (snd kv) + n) 0 d) <= n ->
    object_loop n (tl (join (item_separator level) (map (entry_text level) d)
                       ++ newline_indent level ++ lit "}" ++ rest)) pairs
    = Scanned (VDict (dict_of_pairs (pairs ++ d))) rest.
Proof.
  induction d as [|[k v] d IH]; intros HF Hp Hne pairs n rest Hn; [congruence|].
  inversion HF as [|? ? Hv HF']; subst. cbn [snd] in Hv.
  simpl in Hp. apply andb_prop in Hp as [Hkv Hp].
  apply andb_prop in Hkv as [Hk Hpv].
  destruct n as [|m]; [simpl in Hn; lia|].
  simpl fold_right in Hn. pose proof (value_size_pos v) as Hs.
  rewrite object_loop_S.
  assert (Ht : forall tail,
             tl (entry_text level (k, v) ++ tail)
             = flat_map escape_char k ++ dq
               ++ lit ": " ++ iterencode (S level) v ++ tail).
  { intros tail. unfold entry_text, encode_basestring_ascii. cbn [fst snd].
    rewrite <- !app_assoc. reflexivity. }
  destruct d as [|[k' v'] d'].
  - simpl join. rewrite Ht, (scanstring_encoded k _ Hk).
    change (skip_ws (lit ": " ++ ?t)) with (58%N :: 32%N :: t).
    change (negb (58 =? 58)%N) with false. cbv iota.
    change (skip_ws (32%N :: ?t)) with (skip_ws t).
    rewrite (skip_ws_iterencode (S level) v _ Hpv).
    rewrite (Hv Hpv (S level) m (newline_indent level ++ lit "}" ++ rest))
      by (try reflexivity; simpl in Hn; lia).
    cbv zeta. rewrite skip_ws_blank by apply newline_indent_blank.
    change (skip_ws (lit "}" ++ rest)) with (125%N :: rest).
    reflexivity.
  - rewrite join_map_cons2, <- !app_assoc.
    rewrite Ht, (scanstring_encoded k _ Hk).
    change (skip_ws (lit ": " ++ ?t)) with (58%N :: 32%N :: t).
    change (negb (58 =? 58)%N) with false. cbv iota.
    change (skip_ws (32%N :: ?t)) with (skip_ws t).
    rewrite (skip_ws_iterencode (S level) v _ Hpv).
    rewrite (Hv Hpv (S level) m _) by (try reflexivity; lia).
    cbv zeta.
    change (skip_ws (item_separator level ++ ?t))
      with (44%N :: newline_indent (S level) ++ t).
    change (44 =? 125)%N with false. change (negb (44 =? 44)%N) with false.
    cbv iota.
    rewrite skip_ws_blank by apply newline_indent_blank.
    assert (Eh : forall tail,
               join (item_separator level)
                    (map (entry_text level) ((k', v') :: d')) ++ tail
               = 34%N :: tl (join (item_separator level)
                               (map (entry_text level) ((k', v') :: d')) ++ tail)).
    { intros tail. destruct d'; reflexivity. }
    rewrite Eh. rewrite (skip_ws_nonblank 34%N _ eq_refl).
    change (34 =? 34)%N with true. cbv iota.
    rewrite (IH HF' Hp) by (try discriminate; lia).
    now rewrite <- app_assoc.
Qed.

(** [scan_once] reads the text of a plain value back, given fuel for its
    size, whatever follows the text that cannot continue a number. *)
Lemma scan_once_iterencode (v : value) : reads_back v.
Proof.
  induction v as [ |b|z|x|s|l IH|d IH] using value_ind';
    intros Hp level n rest Hn He;
    (destruct n as [|m];
     [match type of Hn with
      | value_size ?v <= _ => pose proof (value_size_pos v); lia
      end|]).
  - reflexivity.
  - destruct b; reflexivity.
  - now apply scan_once_number.
  - discriminate.
  - simpl in Hp. unfold iterencode, encode_basestring_ascii.
    rewrite <- !app_assoc. rewrite scan_once_S.
    change (dq ++ ?t) with (34%N :: t). cbv iota.
    change (34 =? 34)%N with true. cbv iota.
    now rewrite (scanstring_encoded s rest Hp).
  - destruct l as [|x l]; [reflexivity|].
    change (iterencode level (VList (x :: l)))
      with (lit "[" ++ newline_indent (S level)
            ++ join (item_separator level) (map (iterencode (S level)) (x :: l))
            ++ newline_indent level ++ lit "]").
    rewrite <- !app_assoc. change (lit "[" ++ ?t) with (91%N :: t).
    simpl in Hp. pose proof Hp as Hp'. apply andb_prop in Hp' as [Hpx _].
    destruct (iterencode_head (S level) x Hpx) as [c [t [E [W N]]]].
    destruct (join_head (item_separator level) _
                (map (iterencode (S level)) l) c t
                (newline_indent level ++ lit "]" ++ rest) E) as [t' Et].
    change (map (iterencode (S level)) (x :: l))
      with (iterencode (S level) x :: map (iterencode (S level)) l).
    rewrite (scan_once_open_list m _ _ c t' (newline_indent_blank _) Et W N).
    change (iterencode (S level) x :: map (iterencode (S level)) l)
      with (map (iterencode (S level)) (x :: l)).
    rewrite (array_loop_items level (x :: l) IH Hp) by (try discriminate; simpl in Hn |- *; lia).
    reflexivity.
  - destruct d as [|[k x] d]; [reflexivity|].
    change (iterencode level (VDict ((k, x) :: d)))
      with (lit "{" ++ newline_indent (S level)
            ++ join (item_separator level) (map (entry_text level) ((k, x) :: d))
            ++ newline_indent level ++ lit "}").
    rewrite <- !app_assoc. change (lit "{" ++ ?t) with (123%N :: t).
    simpl in Hp. apply andb_prop in Hp as [Hp Hu].
    assert (Eh : join (item_separator level)
                      (map (entry_text level) ((k, x) :: d))
                 ++ newline_indent level ++ lit "}" ++ rest
                 = 34%N :: tl (join (item_separator level)
                                 (map (entry_text level) ((k, x) :: d))
                               ++ newline_indent level ++ lit "}" ++ rest)).
    { destruct d; reflexivity. }
    rewrite Eh, (scan_once_open_dict m _ _ (newline_indent_blank _)).
    rewrite (object_loop_entries level ((k, x) :: d) IH Hp)
      by (try discriminate; simpl in Hn |- *; lia).
    cbn [app]. rewrite dict_of_pairs_NoDup; [reflexivity|].
    now apply unique_keys_NoDup.
Qed.

Lemma sum_sizes_le {A : Type} (size : A -> nat) (text : A -> str) (l : list A) :
  Forall (fun x => size x <= 2 * length (text x)) l ->
  fold_right (fun x n => size x + n) 0 l
  <= 2 * fold_right (fun p n => length p + n) 0 (map text l).
Proof.
  induction 1 as [|x l Hx _ IH]; simpl; lia.
Qed.

(** Two units of fuel per character are enough for the text of a value. *)
Lemma value_size_le (v : value) :
  plain_value v = true ->
  forall level, value_size v <= 2 * length (iterencode level v).
Proof.
  induction v as [ |b|z|x|s|l IH|d IH] using value_ind'; intros Hp level.
  - simpl. lia.
  - destruct b; simpl; lia.
  - simpl. destruct (str_int_head z) as [c [t [-> _]]]. simpl. lia.
  - discriminate.
  - simpl. unfold encode_basestring_ascii. rewrite !length_app. simpl. lia.
  - destruct l as [|x l]; [simpl; lia|].
    change (iterencode level (VList (x :: l)))
      with (lit "[" ++ newline_indent (S level)
            ++ join (item_separator level) (map (iterencode (S level)) (x :: l))
            ++ newline_indent level ++ lit "]").
    rewrite !length_app.
    change (value_size (VList (x :: l)))
      with (2 + fold_right (fun x n => value_size x + n) 0 (x :: l)).
    assert (H : fold_right (fun x n => value_size x + n) 0 (x :: l)
                <= 2 * length (join (item_separator level)
                                 (map (iterencode (S level)) (x :: l)))).
    { eapply Nat.le_trans;
        [apply (sum_sizes_le value_size (iterencode (S level)))|].
      - simpl in Hp. rewrite Forall_forall in *. intros y Hy.
        apply (IH y Hy).
        change (forallb plain_value (x :: l) = true) in Hp.
        rewrite forallb_forall in Hp. now apply Hp.
      - apply Nat.mul_le_mono_l. now apply length_join_ge. }
    change (length (lit "[")) with 1. change (length (lit "{")) with 1. lia.
  - destruct d as [|[k x] d]; [simpl; lia|].
    change (iterencode level (VDict ((k, x) :: d)))
      with (lit "{" ++ newline_indent (S level)
            ++ join (item_separator level) (map (entry_text level) ((k, x) :: d))
            ++ newline_indent level ++ lit "}").
    rewrite !length_app.
    change (value_size (VDict ((k, x) :: d)))
      with (2 + fold_right (fun kv n => value_size (snd kv) + n) 0 ((k, x) :: d)).
    assert (H : fold_right (fun kv n => value_size (snd kv) + n) 0 ((k, x) :: d)
                <= 2 * length (join (item_separator level)
                                 (map (entry_text level) ((k, x) :: d)))).
    { eapply Nat.le_trans;
        [apply (sum_sizes_le (fun kv => value_size (snd kv)) (entry_text level))|].
      - simpl in Hp. apply andb_prop in Hp as [Hp _].
        change (forallb (fun kv => forallb is_scalar (fst kv) && plain_value (snd kv))
                        ((k, x) :: d) = true) in Hp.
        rewrite forallb_forall in Hp. rewrite Forall_forall in *.
        intros kv Hkv. specialize (Hp kv Hkv). apply andb_prop in Hp as [_ Hp].
        specialize (IH kv Hkv Hp (S level)).
        unfold entry_text. rewrite !length_app. lia.
      - apply Nat.mul_le_mono_l. now apply length_join_ge. }
    change (length (lit "[")) with 1. change (length (lit "{")) with 1. lia.
Qed.

(** What [json.dump] writes with [indent=4], [json.loads] reads back. *)
Lemma json_loads_iterencode (v : value) :
  plain_value v = true -> json_loads (iterencode 0 v) = Loaded v.
Proof.
  intros Hp. unfold json_loads.
  rewrite <- (app_nil_r (iterencode 0 v)) at 2.
  rewrite (skip_ws_iterencode 0 v [] Hp).
  rewrite (scan_once_iterencode v Hp 0 _ []);
    [reflexivity| |reflexivity].
  pose proof (value_size_le v Hp 0). lia.
Qed.

End Encoder.
(** ** The submissions file *)

Section Submissions.
Context {rt : Runtime}.

Lemma storable_plain (v : value) : storable v = true -> plain_value v = true.
Proof. unfold storable. intros H. now apply andb_prop in H as [H _]. Qed.

Lemma storable_list (submissions : list value) (submission : value) :
  forallb storable submissions = true -> storable submission = true ->
  plain_value (VList (submissions ++ [submission])) = true.
Proof.
  intros Hl Hs. cbn [plain_value]. rewrite forallb_app. simpl.
  rewrite (storable_plain _ Hs), andb_true_r.
  rewrite forallb_forall in *. intros x Hx. now apply storable_plain, Hl.
Qed.

Lemma json_load_iterencode_list (l : list value) :
  plain_value (VList l) = true ->
  json_load (iterencode 0 (VList l)) = Done (VList l).
Proof.
  intros Hp. unfold json_load.
  assert (B : startswith (iterencode 0 (VList l)) [byte_order_mark] = false)
    by (destruct l; reflexivity).
  now rewrite B, (json_loads_iterencode _ Hp).
Qed.

Lemma save_submission_done
  (FILE : option str) (submissions : list value) (submission : value) :
  load_submissions FILE = Done (VList submissions) ->
  forallb storable submissions = true -> storable submission = true ->
  fst (save_submission FILE submission) = Done tt
  /\ load_submissions (snd (save_submission FILE submission))
     = Done (VList (submissions ++ [submission])).
Proof.
  intros Hl Hs Hn. unfold save_submission. rewrite Hl. cbn [fst snd].
  split; [reflexivity|].
  cbn [load_submissions]. apply json_load_iterencode_list.
  now apply storable_list.
Qed.

(** When the file is absent, or holds a list of storable values,
    [save_submission] succeeds on a storable submission, and
    [load_submissions] then returns the list with the submission added at
    its end. *)
Theorem save_submission_then_load
  (FILE : option str) (submissions : list value) (submission : value) :
  load_submissions FILE = Done (VList submissions) ->
  forallb storable submissions = true -> storable submission = true ->
  fst (save_submission FILE submission) = Done tt
  /\ load_submissions (snd (save_submission FILE submission))
     = Done (VList (submissions ++ [submission])).
Proof. apply save_submission_done. Qed.

Lemma save_all_load (submissions : list value) :
  forall FILE before,
    load_submissions FILE = Done (VList before) ->
    forallb storable before = true -> forallb storable submissions = true ->
    load_submissions (save_all FILE submissions)
    = Done (VList (before ++ submissions)).
Proof.
  induction submissions as [|s l IH]; intros FILE before Hl Hb Hs.
  - simpl. now rewrite app_nil_r.
  - simpl in Hs. apply andb_prop in Hs as [Hs1 Hs2].
    destruct (save_submission_done FILE before s Hl Hb Hs1) as [_ Hl'].
    unfold save_all. simpl fold_left. fold (save_all (snd (save_submission FILE s)) l).
    rewrite (IH _ (before ++ [s]) Hl').
    + now rewrite <- app_assoc.
    + rewrite forallb_app. simpl. now rewrite Hb, Hs1.
    + exact Hs2.
Qed.

(** Starting without a file, saving storable submissions one by one
    leaves a file from which [load_submissions] returns exactly these
    submissions, in the order in which they were saved. *)
Theorem save_all_then_load (submissions : list value) :
  forallb storable submissions = true ->
  load_submissions (save_all None submissions) = Done (VList submissions).
Proof.
  intros H. now apply (save_all_load submissions None []).
Qed.


End Submissions.

Lemma save_submission_then_load_witness :
  load_submissions None = Done (VList [])
  /\ forallb storable [] = true
  /\ storable example_submission = true
  /\ fst (@save_submission example_runtime None example_submission) = Done tt
  /\ load_submissions (snd (@save_submission example_runtime None example_submission))
     = Done (VList [example_submission]).
Proof.
  assert (H : storable example_submission = true) by (vm_compute; reflexivity).
  split; [reflexivity|]. split; [reflexivity|]. split; [exact H|].
  exact (@save_submission_then_load example_runtime None [] example_submission
           eq_refl eq_refl H).
Defined.

Lemma save_all_then_load_witness :
  forallb storable [example_submission; VInt 7] = true
  /\ load_submissions (@save_all example_runtime None [example_submission; VInt 7])
     = Done (VList [example_submission; VInt 7]).
Proof.
  assert (H : forallb storable [example_submission; VInt 7] = true)
    by (vm_compute; reflexivity).
  split; [exact H|].
  exact (@save_all_then_load example_runtime _ H).
Defined.


(** ** The prompt determines its inputs *)

(** Two calls of [build_prompt] that give the same prompt were given the
    same rating and the same review. *)
Theorem build_prompt_injective (rating1 rating2 : Z) (review1 review2 : str) :
  build_prompt rating1 review1 = build_prompt rating2 review2 ->
  rating1 = rating2 /\ review1 = review2.
Proof.
  rewrite !build_prompt_shape. intros H. apply app_inv_head in H.
  pose proof (match_number_str_int rating1
                (template_mid ++ review1 ++ prompt_tail) eq_refl) as M1.
  pose proof (match_number_str_int rating2
                (template_mid ++ review2 ++ prompt_tail) eq_refl) as M2.
  rewrite H, M2 in M1.
  assert (Hr : rating1 = rating2) by congruence.
  assert (Ht : template_mid ++ review1 ++ prompt_tail
               = template_mid ++ review2 ++ prompt_tail) by congruence.
  apply app_inv_head in Ht. apply app_inv_tail in Ht. now split.
Qed.

Lemma build_prompt_injective_witness :
  build_prompt 5 (lit "Great food!") = build_prompt 5 (lit "Great food!")
  /\ 5%Z = 5%Z /\ lit "Great food!" = lit "Great food!".
Proof.
  split; [reflexivity|].
  exact (build_prompt_injective 5 5 (lit "Great food!") (lit "Great food!") eq_refl).
Defined.
